(** * facememory: audio feature extraction and emotion-stability smoothing

    A shallow embedding of the numeric and state-keeping code of

      - [static/js/text-chat.js]  ([calculateAudioFeatures]), and
      - [static/js/camera.js]     ([mapEmotion], [saveEmotion],
        [getStableEmotion], [detectFaces], the stop-button handler).

    JavaScript numbers are IEEE-754 binary64 values; they are modelled by
    Rocq's primitive floats, whose operations are the same binary64
    operations with round-to-nearest-even.  Quantities that the code only
    ever uses as array lengths, indices or millisecond clock readings are
    integers far below 2^53 and are kept in [Z]. *)

From Stdlib Require Import ZArith List String Bool Lia Floats.
Import ListNotations.

Set Warnings "-inexact-float".

(** ** JavaScript number helpers *)

Module JS.

Local Open Scope float_scope.

(** An integer-valued JS number (exact below 2^53). *)
Definition of_Z (z : Z) : float :=
  SF2Prim (binary_normalize prec emax z 0 false).

(** [Math.floor] on a finite number, as the integer it denotes.  The
    code applies it to [length * fraction] only, which is finite. *)
Definition floor (x : float) : Z :=
  match Prim2SF x with
  | S754_finite s m e =>
      let v := if s then Z.neg m else Z.pos m in
      if (0 <=? e)%Z then (v * 2 ^ e)%Z else (v / 2 ^ (- e))%Z
  | _ => 0%Z
  end.

(** [Math.max(a, b)]: NaN if either argument is NaN, and +0 above -0. *)
Definition max (a b : float) : float :=
  if is_nan a || is_nan b then nan
  else if a <? b then b
  else if b <? a then a
  else if get_sign a then b else a.

(** [Math.min(a, b)]: NaN if either argument is NaN, and -0 below +0. *)
Definition min (a b : float) : float :=
  if is_nan a || is_nan b then nan
  else if a <? b then a
  else if b <? a then b
  else if get_sign a then a else b.

(** [typedArray.slice(lo, hi)] for [0 <= lo]; an empty range when
    [hi <= lo], cut at the end of the array. *)
Definition slice {A} (l : list A) (lo hi : Z) : list A :=
  firstn (Z.to_nat (hi - lo)) (skipn (Z.to_nat lo) l).

(** [arr.reduce((sum, val, i) => f sum val i, init)], left to right with
    the running index. *)
Fixpoint reduce_from {A B} (f : B -> A -> Z -> B) (i : Z) (l : list A)
         (acc : B) : B :=
  match l with
  | [] => acc
  | v :: rest => reduce_from f (i + 1) rest (f acc v i)
  end.

Definition reduce {A B} (f : B -> A -> Z -> B) (l : list A) (init : B) : B :=
  reduce_from f 0 l init.

End JS.

(** ** text-chat.js: [calculateAudioFeatures] *)

Module Audio.

Local Open Scope float_scope.

(** The object literal returned by [calculateAudioFeatures]. *)
Record AudioFeatures := {
  pitch : float;
  volume : float;
  speechRate : float;
  spectralCentroid : float;
  spectralSpread : float;
  bassEnergy : float;
  lowMidEnergy : float;
  midEnergy : float;
  presenceEnergy : float;
  brillianceEnergy : float;
  totalEnergy : float;
  consistency : float
}.

(** A [Uint8Array]: every element is a byte. *)
Definition is_snapshot (frequencyData : list Z) : Prop :=
  Forall (fun v => (0 <= v < 256)%Z) frequencyData.

(** [slice.reduce((sum, val) => sum + (val * w), 0) / (len * 255)] *)
Definition bandEnergy (band : list Z) (w : float) (len : Z) : float :=
  JS.reduce (fun sum val _ => sum + (JS.of_Z val * w)) band 0
  / (JS.of_Z len * 255).

(** [Math.min(1, Math.max(0, x))] *)
Definition clamp01 (x : float) : float := JS.min 1 (JS.max 0 x).

(** The [for] loop that accumulates [spectralCentroid] and [totalWeight]. *)
Definition centroidLoop (frequencyData : list Z) : float * float :=
  JS.reduce (fun '(c, w) val i => (c + JS.of_Z i * JS.of_Z val, w + JS.of_Z val))
            frequencyData (0, 0).

(** The local [spectralCentroid] after its guarded division. *)
Definition centroidOf (frequencyData : list Z) : float :=
  let bufferLength := JS.of_Z (Z.of_nat (List.length frequencyData)) in
  let '(centroidSum, totalWeight) := centroidLoop frequencyData in
  if 0 <? totalWeight then centroidSum / totalWeight / bufferLength else 0.

(** The local [spectralSpread]: the square root of the weighted variance
    of the bin positions, before the clamp of the returned field. *)
Definition spreadOf (frequencyData : list Z) : float :=
  let bufferLength := JS.of_Z (Z.of_nat (List.length frequencyData)) in
  let spectralCentroid := centroidOf frequencyData in
  let totalWeight := snd (centroidLoop frequencyData) in
  sqrt (JS.reduce (fun sum val i =>
                     let diff := (JS.of_Z i / bufferLength) - spectralCentroid in
                     sum + (diff * diff * JS.of_Z val))
                  frequencyData 0
        / totalWeight).

Definition calculateAudioFeatures (frequencyData : list Z) : AudioFeatures :=
  let n := Z.of_nat (List.length frequencyData) in
  let bufferLength := JS.of_Z n in
  let bassRange := JS.floor (bufferLength * 0.1) in
  let lowMidRange := JS.floor (bufferLength * 0.3) in
  let midRange := JS.floor (bufferLength * 0.6) in
  let presenceRange := JS.floor (bufferLength * 0.8) in
  let brillianceRange := n in
  let bassEnergy :=
    bandEnergy (JS.slice frequencyData 0 bassRange) 1.2 bassRange in
  let lowMidEnergy :=
    bandEnergy (JS.slice frequencyData bassRange lowMidRange) 1.5
               (lowMidRange - bassRange) in
  let midEnergy :=
    bandEnergy (JS.slice frequencyData lowMidRange midRange) 2.0
               (midRange - lowMidRange) in
  let presenceEnergy :=
    bandEnergy (JS.slice frequencyData midRange presenceRange) 1.8
               (presenceRange - midRange) in
  let brillianceEnergy :=
    bandEnergy (JS.slice frequencyData presenceRange n) 1.3
               (brillianceRange - presenceRange) in
  let totalEnergy :=
    JS.reduce (fun sum val _ => sum + JS.of_Z val) frequencyData 0
    / (bufferLength * 255) in
  let pitch :=
    (presenceEnergy * 1.5 + brillianceEnergy) / (bassEnergy + lowMidEnergy) in
  let volume := (midEnergy * 2 + presenceEnergy * 1.5 + bassEnergy) / 3 in
  let speechRate :=
    (presenceEnergy + midEnergy) / (bassEnergy + lowMidEnergy) in
  let spectralCentroid := centroidOf frequencyData in
  let spectralSpread := spreadOf frequencyData in
  {| pitch := clamp01 pitch;
     volume := clamp01 volume;
     speechRate := clamp01 speechRate;
     spectralCentroid := clamp01 spectralCentroid;
     spectralSpread := clamp01 spectralSpread;
     bassEnergy := bassEnergy;
     lowMidEnergy := lowMidEnergy;
     midEnergy := midEnergy;
     presenceEnergy := presenceEnergy;
     brillianceEnergy := brillianceEnergy;
     totalEnergy := totalEnergy;
     consistency := 1 - spectralSpread |}.

(** [analyser.fftSize = 2048], so a snapshot has 1024 bins. *)
Definition silence : list Z := repeat 0%Z 1024.

Definition in01 (x : float) : bool := (0 <=? x) && (x <=? 1).

End Audio.

(** ** camera.js: smoothing state, persistence gate, detection loop *)

Module Camera.

Local Open Scope string_scope.
Local Open Scope Z_scope.

(** Emotion labels are JS strings. *)
Definition label := string.

Definition NO_FACE : label := "No face detected".

(** *** [mapEmotion] *)

(** [Object.entries(expressions)]: the recognizer's scores, in order,
    keyed by its expression names (the keys of [emotionMap]). *)
Definition Expressions := list (string * float).

Definition emotionMap : list (string * label) :=
  [("neutral", "Neutral"); ("happy", "Happy"); ("sad", "Sad");
   ("angry", "Angry"); ("fearful", "Fearful"); ("disgusted", "Disgusted");
   ("surprised", "Surprised")].

Fixpoint lookup {V} (k : string) (o : list (string * V)) : option V :=
  match o with
  | [] => None
  | (k', v) :: rest => if String.eqb k' k then Some v else lookup k rest
  end.

Definition mapEmotion (expressions : Expressions) : label * float :=
  let '(maxValue, maxEmotion) :=
    fold_left (fun '(maxValue, maxEmotion) '(emotion, value) =>
                 if (maxValue <? value)%float then (value, emotion)
                 else (maxValue, maxEmotion))
              expressions (0%float, "Neutral") in
  (match lookup maxEmotion emotionMap with
   | Some l => l
   | None => "Neutral"
   end, maxValue).

(** *** [getStableEmotion] *)

(** The labels [mapEmotion] can return: the values of [emotionMap]
    (its fallback "Neutral" is one of them).  They are the only labels
    that [detectFaces] hands to [getStableEmotion]. *)
Definition emotionLabels : list label :=
  ["Neutral"; "Happy"; "Sad"; "Angry"; "Fearful"; "Disgusted"; "Surprised"].

Definition isEmotionLabel (l : label) : Prop := In l emotionLabels.

(** The [counts] object, for such labels: none of them is an array index
    or a name that a plain object inherits, so [counts[emotion]] is
    [undefined] until it is assigned and [Object.entries] lists the keys
    in the order they were first assigned.  The association list keeps
    that order. *)
Definition Counts := list (label * nat).

(** [counts[emotion] = (counts[emotion] || 0) + 1] *)
Fixpoint increment (emotion : label) (counts : Counts) : Counts :=
  match counts with
  | [] => [(emotion, 1%nat)]
  | (k, c) :: rest =>
      if String.eqb k emotion then (k, S c) :: rest
      else (k, c) :: increment emotion rest
  end.

(** [emotionHistory.forEach(emotion => ...)] from [counts = {}]. *)
Definition countOccurrences (history : list label) : Counts :=
  fold_left (fun counts emotion => increment emotion counts) history [].

(** One iteration of the [for (const [emotion, count] of ...)] loop, on
    the pair of locals [(maxCount, stableEmotion)]. *)
Definition pick (acc : nat * label) (entry : label * nat) : nat * label :=
  let '(maxCount, stableEmotion) := acc in
  let '(emotion, count) := entry in
  if (maxCount <? count)%nat then (count, emotion) else (maxCount, stableEmotion).

(** [emotionHistory.push(newEmotion); if (length > 5) shift()] *)
Definition remember (newEmotion : label) (history : list label) : list label :=
  let pushed := (history ++ [newEmotion])%list in
  if (5 <? List.length pushed)%nat then tl pushed else pushed.

(** The most frequent label of a history, scanning [counts] in key order;
    [newEmotion] is the default. *)
Definition mostFrequent (newEmotion : label) (history : list label) : label :=
  snd (fold_left pick (countOccurrences history) (0%nat, newEmotion)).

(** [getStableEmotion(newEmotion)] on the module variable
    [emotionHistory]: the updated history and the returned label. *)
Definition getStableEmotion (newEmotion : label) (emotionHistory : list label)
  : list label * label :=
  let history := remember newEmotion emotionHistory in
  (history, mostFrequent newEmotion history).

(** Successive calls, oldest first; the labels returned, in order, and
    the final history. *)
Fixpoint observeAll (labels : list label) (emotionHistory : list label)
  : list label * list label :=
  match labels with
  | [] => (emotionHistory, [])
  | l :: rest =>
      let '(h, s) := getStableEmotion l emotionHistory in
      let '(h', out) := observeAll rest h in
      (h', s :: out)
  end.

(** *** Module state of camera.js *)

Inductive MediaStream := LiveStream.

Record State := {
  isStreaming : bool;
  stream : option MediaStream;
  lastEmotionSaveTime : Z;
  lastDetectionTime : Z;
  emotionHistory : list label;
  currentEmotion : label;
  noFaceDetectionCount : Z;
  emotionDisplay : string       (* emotionDisplay.textContent *)
}.

(** The state when the script has loaded; the text of the display
    element comes from the page. *)
Definition initial (pageText : string) : State :=
  {| isStreaming := false; stream := None;
     lastEmotionSaveTime := 0; lastDetectionTime := 0;
     emotionHistory := []; currentEmotion := NO_FACE;
     noFaceDetectionCount := 0; emotionDisplay := pageText |}.

(** What a handler does to the outside world. *)
Inductive Effect :=
| Post (emotion : label) (confidence : float) (now : Z)
    (* fetch('/api/emotions', {method: 'POST', ...}) issued at [now] *)
| UpdateDashboard (emotion : label) (confidence : float)
| UpdateDisplay (emotion : label)
| StopTracks
| RequestFrame.   (* requestAnimationFrame(detectFaces) *)

Definition emotionSaveInterval : Z := 2000.
Definition detectionInterval : Z := 500.

(** *** [saveEmotion]; [now] is the reading of [Date.now()]. *)
Definition saveEmotion (emotion : label) (confidence : float) (now : Z)
           (st : State) : State * list Effect :=
  if negb (String.eqb emotion NO_FACE)
     && (emotionSaveInterval <? now - lastEmotionSaveTime st)
  then ({| isStreaming := isStreaming st; stream := stream st;
           lastEmotionSaveTime := now;
           lastDetectionTime := lastDetectionTime st;
           emotionHistory := emotionHistory st;
           currentEmotion := currentEmotion st;
           noFaceDetectionCount := noFaceDetectionCount st;
           emotionDisplay := emotionDisplay st |},
        [Post emotion confidence now])
  else (st, []).

(** *** [detectFaces] *)

(** One detection result: [detection.expressions], when present. *)
Record Face := { expressions : option Expressions }.

(** What one invocation of [detectFaces] reads from its environment:
    the clock, whether the video element is ready, the recognizer's
    answer (empty when every detector found nothing or failed), and the
    clock reading taken inside [saveEmotion].  An invocation is one step:
    the loop asks for its next frame only when an invocation ends, and the
    part of [saveEmotion] before its [await] runs inside the call. *)
Record Frame := {
  now : Z;
  videoReady : bool;
  detections : list Face;
  saveNow : Z
}.

Definition detectFaces (fr : Frame) (st : State) : State * list Effect :=
  if negb (isStreaming st) then (st, [])
  else if now fr - lastDetectionTime st <? detectionInterval
  then (st, [RequestFrame])
  else
    let st1 :=
      {| isStreaming := isStreaming st; stream := stream st;
         lastEmotionSaveTime := lastEmotionSaveTime st;
         lastDetectionTime := now fr;
         emotionHistory := emotionHistory st;
         currentEmotion := currentEmotion st;
         noFaceDetectionCount := noFaceDetectionCount st;
         emotionDisplay := emotionDisplay st |} in
    if negb (videoReady fr) then (st1, [RequestFrame])
    else
      match detections fr with
      | detection :: _ =>
          let reset hist cur disp :=
            {| isStreaming := isStreaming st1; stream := stream st1;
               lastEmotionSaveTime := lastEmotionSaveTime st1;
               lastDetectionTime := lastDetectionTime st1;
               emotionHistory := hist;
               currentEmotion := cur;
               noFaceDetectionCount := 0;
               emotionDisplay := disp |} in
          let idle :=
            reset (emotionHistory st1) (currentEmotion st1) (emotionDisplay st1) in
          match expressions detection with
          | Some ex =>
              let '(emotion, confidence) := mapEmotion ex in
              if (0.2 <? confidence)%float then
                let '(history, stableEmotion) :=
                  getStableEmotion emotion (emotionHistory st1) in
                if negb (String.eqb stableEmotion (currentEmotion st1)) then
                  let '(st2, posted) :=
                    saveEmotion stableEmotion confidence (saveNow fr)
                                (reset history stableEmotion stableEmotion) in
                  (st2, ([UpdateDashboard stableEmotion confidence;
                          UpdateDisplay stableEmotion]
                         ++ posted ++ [RequestFrame])%list)
                else
                  (reset history (currentEmotion st1) (emotionDisplay st1),
                   [UpdateDashboard stableEmotion confidence; RequestFrame])
              else (idle, [RequestFrame])
          | None => (idle, [RequestFrame])
          end
      | [] =>
          let count := noFaceDetectionCount st1 + 1 in
          if (5 <? count) && negb (String.eqb (currentEmotion st1) NO_FACE)
          then
            ({| isStreaming := isStreaming st1; stream := stream st1;
                lastEmotionSaveTime := lastEmotionSaveTime st1;
                lastDetectionTime := lastDetectionTime st1;
                emotionHistory := [];
                currentEmotion := NO_FACE;
                noFaceDetectionCount := count;
                emotionDisplay := NO_FACE |},
             [UpdateDisplay NO_FACE; RequestFrame])
          else
            ({| isStreaming := isStreaming st1; stream := stream st1;
                lastEmotionSaveTime := lastEmotionSaveTime st1;
                lastDetectionTime := lastDetectionTime st1;
                emotionHistory := emotionHistory st1;
                currentEmotion := currentEmotion st1;
                noFaceDetectionCount := count;
                emotionDisplay := emotionDisplay st1 |},
             [RequestFrame])
      end.

(** *** The start and stop buttons *)

(** The start handler when the camera is granted and the video plays:
    it keeps the stream and sets [isStreaming]; [detectFaces] then runs
    as the following frames.  When access fails nothing here changes. *)
Definition startClick (granted : bool) (st : State) : State * list Effect :=
  if negb (isStreaming st) && granted then
    ({| isStreaming := true; stream := Some LiveStream;
        lastEmotionSaveTime := lastEmotionSaveTime st;
        lastDetectionTime := lastDetectionTime st;
        emotionHistory := emotionHistory st;
        currentEmotion := currentEmotion st;
        noFaceDetectionCount := noFaceDetectionCount st;
        emotionDisplay := emotionDisplay st |}, [])
  else (st, []).

Definition stopClick (st : State) : State * list Effect :=
  if isStreaming st then
    ({| isStreaming := false; stream := None;
        lastEmotionSaveTime := lastEmotionSaveTime st;
        lastDetectionTime := lastDetectionTime st;
        emotionHistory := emotionHistory st;
        currentEmotion := currentEmotion st;
        noFaceDetectionCount := noFaceDetectionCount st;
        emotionDisplay := "Waiting for detection..." |},
     match stream st with Some _ => [StopTracks] | None => [] end)
  else (st, []).

(** *** Executions *)

Inductive Event :=
| StartClick (granted : bool)
| StopClick
| Tick (fr : Frame)
| Save (emotion : label) (confidence : float) (now : Z).

Definition step (ev : Event) (st : State) : State * list Effect :=
  match ev with
  | StartClick granted => startClick granted st
  | StopClick => stopClick st
  | Tick fr => detectFaces fr st
  | Save emotion confidence t => saveEmotion emotion confidence t st
  end.

Fixpoint run (evs : list Event) (st : State) : State * list Effect :=
  match evs with
  | [] => (st, [])
  | ev :: rest =>
      let '(st1, out1) := step ev st in
      let '(st2, out2) := run rest st1 in
      (st2, (out1 ++ out2)%list)
  end.

(** The clock readings of the POST requests of a trace, in order. *)
Fixpoint postTimes (trace : list Effect) : list Z :=
  match trace with
  | [] => []
  | Post _ _ t :: rest => t :: postTimes rest
  | _ :: rest => postTimes rest
  end.

(** Every two successive readings are at least [d] apart. *)
Fixpoint separated (d : Z) (times : list Z) : Prop :=
  match times with
  | t1 :: ((t2 :: _) as rest) => d <= t2 - t1 /\ separated d rest
  | _ => True
  end.

End Camera.

(** ** Reading [counts] as a tally in first-occurrence order *)

Module Tally.

Import Camera.
Local Open Scope list_scope.

(** The keys of [counts] after one more label. *)
Definition addKey (keys : list label) (e : label) : list label :=
  if existsb (String.eqb e) keys then keys else keys ++ [e].

(** The distinct labels of a history, in order of first occurrence. *)
Definition firstSeen (history : list label) : list label :=
  fold_left addKey history [].

Definition occurrences (history : list label) (e : label) : nat :=
  count_occ string_dec history e.

Definition tallyOf (history keys : list label) : Counts :=
  map (fun k => (k, occurrences history k)) keys.
End Tally.

(** ** The window kept by the stability filter *)

Module Window.

Import Camera.
Local Open Scope list_scope.

(** The last [n] elements of a list. *)
Definition lastN {A} (n : nat) (l : list A) : list A :=
  skipn (List.length l - n) l.

(** Following the spec's words for the tie-break: the label that
    "reaches the max count first during a left-to-right scan of current
    history".  [reachesFirst target seen rest] scans [rest] after [seen]
    and stops at the first position where the label just read has been
    read [target] times. *)
Definition maxCount (history : list label) : nat :=
  fold_right Nat.max 0%nat (map (Tally.occurrences history) history).

Fixpoint reachesFirst (target : nat) (seen rest : list label) : option label :=
  match rest with
  | [] => None
  | x :: r =>
      let seen' := seen ++ [x] in
      if (Tally.occurrences seen' x =? target)%nat then Some x
      else reachesFirst target seen' r
  end.

Definition firstToReachMax (history : list label) : option label :=
  reachesFirst (maxCount history) [] history.

End Window.

(** * Executions of camera.js *)

Module Runs.

Import Camera.
Local Open Scope Z_scope.

(** Frames on which [detectFaces] really samples: each comes at least
    [detectionInterval] after the previous sampled one, with the video
    element ready. *)
Fixpoint sampled (last : Z) (frames : list Frame) : Prop :=
  match frames with
  | [] => True
  | fr :: rest =>
      detectionInterval <= now fr - last
      /\ videoReady fr = true
      /\ sampled (now fr) rest
  end.

Definition noDetection (fr : Frame) : Prop := detections fr = [].

(** Each reading is more than [emotionSaveInterval] after the one before,
    the first one after [last]. *)
Fixpoint chained (last : Z) (times : list Z) : Prop :=
  match times with
  | [] => True
  | t :: rest => emotionSaveInterval < t - last /\ chained t rest
  end.

(** A recognizer answer whose strongest expression is "happy". *)
Definition happyFace : Face :=
  {| expressions :=
       Some [("neutral", 0.05); ("happy", 0.9); ("sad", 0.01);
             ("angry", 0.01); ("fearful", 0.01); ("disgusted", 0.01);
             ("surprised", 0.01)]%float%string |}.

Definition frameAt (t : Z) (faces : list Face) : Frame :=
  {| now := t; videoReady := true; detections := faces; saveNow := t + 40 |}.

(** A session: start, one frame with a happy face, stop. *)
Definition firstSession : list Event :=
  [StartClick true; Tick (frameAt 1700000000000 [happyFace]); StopClick].

(** The same user starts again and the first frame shows a happy face. *)
Definition secondSession : list Event :=
  [StartClick true; Tick (frameAt 1700000060000 [happyFace])].

(** The state after a run of [detectFaces] invocations. *)
Definition ticks (frames : list Frame) (st : State) : State :=
  fst (run (map Tick frames) st).

(** Six frames half a second apart, none with a face, after the happy
    frame of the first session. *)
Definition sixEmptyFrames : list Frame :=
  map (fun k => frameAt (1700000000000 + 500 * k) []) [1; 2; 3; 4; 5; 6].

Definition watching : State :=
  fst (run [StartClick true; Tick (frameAt 1700000000000 [happyFace])]
           (initial "")).

End Runs.

(** ** Further definitions: scores, reachable states, dashboard, bands, chat *)

Module Scores.

(** The loop of [mapEmotion] on the pair [(maxValue, maxEmotion)]. *)
Definition scanScores (ex : Camera.Expressions) (acc : float * string)
  : float * string :=
  fold_left (fun '(maxValue, maxEmotion) '(emotion, value) =>
               if (maxValue <? value)%float then (value, emotion)
               else (maxValue, maxEmotion)) ex acc.

End Scores.

Module Reach.

Import Camera.

(** What every handler of camera.js keeps: the current emotion is the
    majority label of the history ("No face detected" for an empty one),
    the history holds at most five of the recognizer's labels, and the
    absence counter is not negative. *)
Definition consistent (st : State) : Prop :=
  currentEmotion st = mostFrequent NO_FACE (emotionHistory st)
  /\ (List.length (emotionHistory st) <= 5)%nat
  /\ Forall isEmotionLabel (emotionHistory st)
  /\ (0 <= noFaceDetectionCount st)%Z.

(** The events of the page itself: clicks and frames, not a direct call
    of [saveEmotion]. *)
Definition handlerEvent (ev : Event) : Prop :=
  match ev with
  | Save _ _ _ => False
  | _ => True
  end.

End Reach.

(** *** camera.js: the statistics of [updateEmotionHistoryDisplay] *)

Module Dashboard.

Import Camera.
Local Open Scope string_scope.
Local Open Scope list_scope.

(** A record of [data.data] as [updateEmotionHistoryDisplay] reads it. *)
Record EmotionRecord := {
  emotion : label;
  confidence : float;
  source : string
}.

(** [records.forEach(record => { emotionCounts[record.emotion] =
    (emotionCounts[record.emotion] || 0) + 1; ... })] from [{}]. *)
Definition emotionCounts (records : list EmotionRecord) : Counts :=
  fold_left (fun counts record => increment (emotion record) counts) records [].

(** [(a, b) => emotionCounts[a] > emotionCounts[b] ? a : b]; a comparison
    with a missing count is false. *)
Definition moreFrequent (counts : Counts) (a b : label) : label :=
  match lookup a counts, lookup b counts with
  | Some ca, Some cb => if (cb <? ca)%nat then a else b
  | _, _ => b
  end.

(** [Object.keys(emotionCounts).reduce(..., Object.keys(emotionCounts)[0])];
    [None] is the [undefined] of an empty object, which the function never
    reaches: it returns early on an empty [records]. *)
Definition dominantEmotion (records : list EmotionRecord) : option label :=
  let counts := emotionCounts records in
  match map fst counts with
  | [] => None
  | first :: _ => Some (fold_left (moreFrequent counts) (map fst counts) first)
  end.

End Dashboard.

(** *** camera.js: gaps in a run of frames *)

Module Dropouts.

Import Camera.
Local Open Scope Z_scope.

(** No stretch of frames without a detection takes the absence counter,
    which stands at [count] before the first frame, beyond five. *)
Fixpoint shortGaps (count : Z) (frames : list Frame) : bool :=
  match frames with
  | [] => true
  | fr :: rest =>
      match detections fr with
      | [] => (count + 1 <=? 5) && shortGaps (count + 1) rest
      | _ :: _ => shortGaps 0 rest
      end
  end.

End Dropouts.

(** *** text-chat.js: zeros, NaN and the bands of a snapshot *)

Module Zeros.

(** A value that is a zero of either sign, or NaN. *)
Definition zeroOrNaN (x : float) : Prop :=
  match Prim2SF x with
  | S754_zero _ | S754_nan => True
  | _ => False
  end.

(** A finite value other than zero. *)
Definition finiteNonzero (x : float) : Prop :=
  match Prim2SF x with
  | S754_finite _ _ _ => True
  | _ => False
  end.

(** A snapshot of silence: every magnitude is 0. *)
Definition allZero (frequencyData : list Z) : Prop :=
  Forall (fun v => v = 0%Z) frequencyData.

End Zeros.

Module Bands.

Local Open Scope float_scope.

(** The four inner band boundaries of [calculateAudioFeatures]:
    [bassRange], [lowMidRange], [midRange], [presenceRange] for a buffer
    of [n] bins. *)
Definition bandBounds (n : Z) : Z * Z * Z * Z :=
  let bufferLength := JS.of_Z n in
  (JS.floor (bufferLength * 0.1), JS.floor (bufferLength * 0.3),
   JS.floor (bufferLength * 0.6), JS.floor (bufferLength * 0.8)).

(** The boundaries are the integer tenths of [n]. *)
Definition tenths (n : Z) : bool :=
  let '(b1, b2, b3, b4) := bandBounds n in
  ((b1 =? n / 10) && (b2 =? 3 * n / 10) && (b3 =? 6 * n / 10)
   && (b4 =? 8 * n / 10))%Z.

(** The largest [frequencyBinCount] of an analyser node: half of the
    largest [fftSize], 32768. *)
Definition maxBins : nat := Z.to_nat 16384.

(** [tenths] holds of the [count] buffer lengths from [n] on. *)
Fixpoint tenthsFrom (count : nat) (n : Z) : bool :=
  match count with
  | O => true
  | S count' => tenths n && tenthsFrom count' (n + 1)
  end.

End Bands.

(** ** text-chat.js: the text chat *)

Module TextChat.

Import Ascii.
Local Open Scope string_scope.

(** [text.includes(word)]: [word] occurs in [text] at some position. *)
Fixpoint includes (text word : string) : bool :=
  if String.prefix word text then true
  else match text with
       | EmptyString => false
       | String _ rest => includes rest word
       end.

Definition negativeWords : list string :=
  ["not"; "no"; "never"; "don't"; "cant"; "cannot"; "wont"; "isnt"; "bad";
   "terrible"].

(** [analyzeUserMessage(message)] on the chat's variable [userMood]; the
    result is its new value.  [toLowerCase] is the host's
    [String.prototype.toLowerCase]. *)
Definition analyzeUserMessage (toLowerCase : string -> string)
           (message : string) (userMood : string) : string :=
  let lowercaseText := toLowerCase message in
  let userMood :=
    if includes lowercaseText "happy" || includes lowercaseText "joy"
       || includes lowercaseText "excited" || includes lowercaseText "great"
       || includes lowercaseText "wonderful"
    then "happy"
    else if includes lowercaseText "sad" || includes lowercaseText "down"
            || includes lowercaseText "depressed"
            || includes lowercaseText "unhappy"
            || includes lowercaseText "miserable"
    then "sad"
    else if includes lowercaseText "angry" || includes lowercaseText "mad"
            || includes lowercaseText "furious"
            || includes lowercaseText "irritated"
            || includes lowercaseText "annoyed"
    then "angry"
    else if includes lowercaseText "afraid" || includes lowercaseText "scared"
            || includes lowercaseText "anxious"
            || includes lowercaseText "nervous"
            || includes lowercaseText "worried"
    then "fearful"
    else if includes lowercaseText "surprised"
            || includes lowercaseText "shocked"
            || includes lowercaseText "amazed"
            || includes lowercaseText "unexpected"
    then "surprised"
    else if includes lowercaseText "disgusted" || includes lowercaseText "gross"
            || includes lowercaseText "repulsed"
            || includes lowercaseText "awful"
    then "disgusted"
    else userMood in
  if String.eqb userMood "neutral" then
    let negativeCount :=
      List.length (filter (fun word => includes lowercaseText word) negativeWords) in
    if (1 <? negativeCount)%nat then "sad" else userMood
  else userMood.

(** The keywords of the six branches, in the order they are tested. *)
Definition emotionWords : list string :=
  ["happy"; "joy"; "excited"; "great"; "wonderful";
   "sad"; "down"; "depressed"; "unhappy"; "miserable";
   "angry"; "mad"; "furious"; "irritated"; "annoyed";
   "afraid"; "scared"; "anxious"; "nervous"; "worried";
   "surprised"; "shocked"; "amazed"; "unexpected";
   "disgusted"; "gross"; "repulsed"; "awful"].

(** Lower case for ASCII letters, everything else unchanged: what
    [toLowerCase] does on ASCII text. *)
Definition lowerAscii (c : ascii) : ascii :=
  let n := nat_of_ascii c in
  if (65 <=? n)%nat && (n <=? 90)%nat then ascii_of_nat (n + 32) else c.

Fixpoint asciiToLowerCase (s : string) : string :=
  match s with
  | EmptyString => EmptyString
  | String c rest => String (lowerAscii c) (asciiToLowerCase rest)
  end.

(** *** The typing animation of [generateAIResponse] *)

(** [s.split(' ')] for a one-character separator. *)
Fixpoint split (sep : ascii) (s : string) : list string :=
  match s with
  | EmptyString => [EmptyString]
  | String c rest =>
      if Ascii.eqb c sep then EmptyString :: split sep rest
      else match split sep rest with
           | [] => [String c EmptyString]
           | word :: words => String c word :: words
           end
  end.

(** [words.join(sep)] *)
Fixpoint join (sep : string) (words : list string) : string :=
  match words with
  | [] => EmptyString
  | [word] => word
  | word :: rest => word ++ sep ++ join sep rest
  end.

(** A message element of the chat container: who sent it and its text. *)
Record Message := { sender : string; text : string }.

(** [addMessageToChat(sender, text)]: the element is appended. *)
Definition addMessageToChat (sender text : string) (chat : list Message)
  : list Message :=
  (chat ++ [{| sender := sender; text := text |}])%list.

(** The loop [for (let i = 0; i < words.length; i += 2)], from index [i];
    [fuel] bounds the number of iterations. *)
Fixpoint typeFrom (fuel i : nat) (words : list string) (chat : list Message)
  : list Message :=
  match fuel with
  | O => chat
  | S fuel' =>
      if (i <? List.length words)%nat then
        let more := (i + 2 <? List.length words)%nat in
        let partialResponse := join " " (firstn (i + 2) words) in
        let chat1 :=
          addMessageToChat "ai" (partialResponse ++ (if more then "..." else ""))
                           chat in
        let chat2 := if more then removelast chat1 else chat1 in
        typeFrom fuel' (i + 2) words chat2
      else chat
  end.

(** The animation for a response: the loop needs no more iterations than
    there are words. *)
Definition typeOut (aiResponse : string) (chat : list Message) : list Message :=
  let words := split " " aiResponse in
  typeFrom (List.length words) 0 words chat.

End TextChat.

(** * Part II: properties *)

Import Camera Tally Window Runs Audio.

(** ** [counts] is the tally of the history *)

Section TallyFacts.

Local Open Scope list_scope.

Lemma existsb_eqb_In e keys :
  existsb (String.eqb e) keys = true <-> In e keys.
Proof.
  rewrite existsb_exists. split.
  - intros [x [Hin Heq]]. apply String.eqb_eq in Heq. now subst.
  - intros Hin. exists e. split; [assumption | apply String.eqb_refl].
Qed.

Lemma occurrences_snoc h e k :
  occurrences (h ++ [e]) k =
  (occurrences h k + if String.eqb e k then 1 else 0)%nat.
Proof.
  unfold occurrences. rewrite count_occ_app. simpl.
  destruct (string_dec e k) as [->|Hne].
  - now rewrite String.eqb_refl.
  - apply String.eqb_neq in Hne. now rewrite Hne.
Qed.

Lemma tallyOf_snoc_other h e keys :
  ~ In e keys -> tallyOf (h ++ [e]) keys = tallyOf h keys.
Proof.
  intros Hnot. unfold tallyOf. apply map_ext_in. intros k Hk.
  rewrite occurrences_snoc.
  destruct (String.eqb_spec e k) as [->|_]; [contradiction|].
  now rewrite Nat.add_0_r.
Qed.

Lemma increment_tallyOf e h keys :
  NoDup keys ->
  (~ In e keys -> occurrences h e = 0%nat) ->
  increment e (tallyOf h keys) = tallyOf (h ++ [e]) (addKey keys e).
Proof.
  induction keys as [|k ks IH]; intros Hnd Hzero.
  - cbn. rewrite occurrences_snoc, String.eqb_refl, Hzero by (intros []).
    reflexivity.
  - inversion Hnd as [|? ? Hk Hks]; subst. unfold addKey. cbn.
    rewrite (String.eqb_sym e k).
    destruct (String.eqb_spec k e) as [->|Hne].
    + cbn. rewrite occurrences_snoc, String.eqb_refl, Nat.add_1_r.
      f_equal. symmetry. now apply tallyOf_snoc_other.
    + cbn. fold (tallyOf h ks). rewrite IH; [|assumption|].
      * unfold addKey.
        assert (Hk' : occurrences (h ++ [e]) k = occurrences h k).
        { rewrite occurrences_snoc.
          destruct (String.eqb_spec e k) as [->|_]; [congruence|].
          apply Nat.add_0_r. }
        destruct (existsb (String.eqb e) ks); cbn; now rewrite Hk'.
      * intros Hnot. apply Hzero. intros [Heq|Hin]; [congruence|contradiction].
Qed.

Lemma firstSeen_snoc h e : firstSeen (h ++ [e]) = addKey (firstSeen h) e.
Proof. unfold firstSeen. now rewrite fold_left_app. Qed.

Lemma In_addKey keys e x : In x (addKey keys e) <-> In x keys \/ x = e.
Proof.
  unfold addKey. destruct (existsb (String.eqb e) keys) eqn:Hex.
  - apply existsb_eqb_In in Hex. split; [tauto|].
    intros [H| ->]; assumption.
  - rewrite in_app_iff. cbn. intuition congruence.
Qed.

Lemma In_firstSeen h x : In x (firstSeen h) <-> In x h.
Proof.
  induction h as [|e h IH] using rev_ind.
  - reflexivity.
  - rewrite firstSeen_snoc, In_addKey, in_app_iff, IH. cbn. intuition congruence.
Qed.

Lemma NoDup_firstSeen h : NoDup (firstSeen h).
Proof.
  induction h as [|e h IH] using rev_ind.
  - constructor.
  - rewrite firstSeen_snoc. unfold addKey.
    destruct (existsb (String.eqb e) (firstSeen h)) eqn:Hex; [assumption|].
    apply NoDup_app; [assumption | repeat constructor; intros [] | ].
    intros x Hx [<-|[]].
    apply existsb_eqb_In in Hx. congruence.
Qed.

(** [counts] holds, for each distinct label in order of first occurrence,
    its number of occurrences. *)
Lemma countOccurrences_tally h :
  countOccurrences h = tallyOf h (firstSeen h).
Proof.
  induction h as [|e h IH] using rev_ind.
  - reflexivity.
  - unfold countOccurrences in *. rewrite fold_left_app. cbn. rewrite IH.
    rewrite firstSeen_snoc. apply increment_tallyOf.
    + apply NoDup_firstSeen.
    + intros Hnot. apply count_occ_not_In. now rewrite <- In_firstSeen.
Qed.

(** A key of [counts] sits after the keys of everything that precedes
    its first occurrence in the history. *)
Lemma firstSeen_split h K1 k K2 :
  firstSeen h = K1 ++ k :: K2 ->
  exists pre post, h = pre ++ k :: post /\ forall x, In x pre -> In x K1.
Proof.
  revert K1 k K2. induction h as [|e h IH] using rev_ind; intros K1 k K2 Heq.
  - destruct K1; discriminate.
  - rewrite firstSeen_snoc in Heq. unfold addKey in Heq.
    destruct (existsb (String.eqb e) (firstSeen h)) eqn:Hex.
    + destruct (IH _ _ _ Heq) as (pre & post & -> & Hpre).
      exists pre, (post ++ [e]). split; [|assumption].
      now rewrite <- app_assoc.
    + destruct K2 as [|z K2' _] using rev_ind.
      * apply app_inj_tail in Heq. destruct Heq as [HK ->].
        exists h, []. split; [reflexivity|].
        intros x Hx. rewrite <- HK. now apply In_firstSeen.
      * change (K1 ++ k :: K2' ++ [z]) with (K1 ++ (k :: K2') ++ [z]) in Heq.
        rewrite app_assoc in Heq. apply app_inj_tail in Heq.
        destruct Heq as [HK _].
        destruct (IH _ _ _ HK) as (pre & post & -> & Hpre).
        exists pre, (post ++ [e]). split; [|assumption].
        now rewrite <- app_assoc.
Qed.

(** The scan for the maximum: either nothing beats the starting pair, or
    the winner is the first entry that carries the largest count. *)
Lemma scan_first_max (L : Counts) :
  forall m0 s0 m s,
    fold_left pick L (m0, s0) = (m, s) ->
    (m = m0 /\ s = s0 /\ forall k c, In (k, c) L -> (c <= m0)%nat)
    \/ (exists L1 L2, L = L1 ++ (s, m) :: L2 /\ (m0 < m)%nat
          /\ (forall k c, In (k, c) L1 -> (c < m)%nat)
          /\ (forall k c, In (k, c) L2 -> (c <= m)%nat)).
Proof.
  induction L as [|[k c] L IH]; intros m0 s0 m s Hfold.
  - left. inversion Hfold; subst. repeat split. intros ? ? [].
  - change (fold_left pick L (pick (m0, s0) (k, c)) = (m, s)) in Hfold.
    unfold pick in Hfold at 2.
    destruct (Nat.ltb_spec m0 c) as [Hlt|Hge].
    + right. destruct (IH _ _ _ _ Hfold)
        as [(-> & -> & Hall) | (L1 & L2 & -> & Hm & H1 & H2)].
      * exists [], L. repeat split; try assumption. intros ? ? [].
      * exists ((k, c) :: L1), L2. repeat split; try assumption; [lia|].
        intros k' c' [Heq|Hin]; [inversion Heq; subst; lia | eauto].
    + destruct (IH _ _ _ _ Hfold)
        as [(-> & -> & Hall) | (L1 & L2 & -> & Hm & H1 & H2)].
      * left. repeat split.
        intros k' c' [Heq|Hin]; [inversion Heq; subst; lia | eauto].
      * right. exists ((k, c) :: L1), L2. repeat split; try assumption.
        intros k' c' [Heq|Hin]; [inversion Heq; subst; lia | eauto].
Qed.

Lemma In_tallyOf h keys k c :
  In (k, c) (tallyOf h keys) -> In k keys /\ c = occurrences h k.
Proof.
  unfold tallyOf. rewrite in_map_iff. intros (x & Heq & Hin).
  inversion Heq; subst. now split.
Qed.

(** What [mostFrequent] returns on a non-empty history: the label [s]
    with the largest number of occurrences whose first occurrence comes
    first; everything before that occurrence is strictly less frequent. *)
Lemma mostFrequent_spec d h :
  h <> [] ->
  exists pre post,
    h = pre ++ mostFrequent d h :: post
    /\ (forall x, In x pre ->
          (occurrences h x < occurrences h (mostFrequent d h))%nat)
    /\ (forall x, (occurrences h x <= occurrences h (mostFrequent d h))%nat).
Proof.
  intros Hne. unfold mostFrequent.
  destruct (fold_left pick (countOccurrences h) (0%nat, d)) as [m s] eqn:Hfold.
  cbn [snd]. rewrite countOccurrences_tally in Hfold.
  apply scan_first_max in Hfold.
  destruct Hfold as [(-> & -> & Hall) | (L1 & L2 & HL & Hm & H1 & H2)].
  - exfalso. destruct h as [|e h]; [congruence|].
    assert (Hin : In e (firstSeen (e :: h))) by (apply In_firstSeen; now left).
    specialize (Hall e (occurrences (e :: h) e)).
    assert (Hpos : (0 < occurrences (e :: h) e)%nat).
    { unfold occurrences. apply count_occ_In. now left. }
    enough (occurrences (e :: h) e <= 0)%nat by lia.
    apply Hall. unfold tallyOf. apply in_map_iff. now exists e.
  - assert (Hs : m = occurrences h s).
    { apply (In_tallyOf h (firstSeen h) s m). rewrite HL.
      apply in_elt. }
    assert (Hkeys : firstSeen h = map fst L1 ++ s :: map fst L2).
    { transitivity (map fst (tallyOf h (firstSeen h))).
      - unfold tallyOf. rewrite map_map. cbn. now rewrite map_id.
      - rewrite HL, map_app. reflexivity. }
    destruct (firstSeen_split _ _ _ _ Hkeys) as (pre & post & Hh & Hpre).
    exists pre, post. split; [assumption|]. split.
    + intros x Hx. apply Hpre in Hx. apply in_map_iff in Hx.
      destruct Hx as ([x' c] & Hfst & Hin). cbn in Hfst. subst x'.
      assert (Hc : c = occurrences h x).
      { apply (In_tallyOf h (firstSeen h) x c). rewrite HL.
        apply in_or_app. now left. }
      specialize (H1 _ _ Hin). lia.
    + intros x. destruct (in_dec string_dec x h) as [Hin|Hnot].
      * assert (Hentry : In (x, occurrences h x) (tallyOf h (firstSeen h))).
        { unfold tallyOf. apply in_map_iff. exists x. split; [reflexivity|].
          now apply In_firstSeen. }
        rewrite HL in Hentry. apply in_app_or in Hentry.
        destruct Hentry as [Hin1 | [Heq | Hin2]].
        -- specialize (H1 _ _ Hin1). lia.
        -- inversion Heq; subst. lia.
        -- specialize (H2 _ _ Hin2). lia.
      * unfold occurrences at 1. rewrite (proj1 (count_occ_not_In _ _ _) Hnot).
        lia.
Qed.

Lemma remember_nonempty e h : remember e h <> [].
Proof.
  unfold remember.
  destruct (Nat.ltb_spec 5 (List.length (h ++ [e]))) as [Hlt|_].
  - destruct (h ++ [e]) as [|a [|b t]]; cbn in *; try lia; discriminate.
  - destruct h; discriminate.
Qed.

End TallyFacts.

(** ** The window is the last five labels *)

Section WindowFacts.

Local Open Scope list_scope.

Lemma tl_skipn {A} n (l : list A) : tl (skipn n l) = skipn (S n) l.
Proof.
  revert l. induction n as [|n IH]; intros [|a l]; try reflexivity.
  cbn [skipn]. rewrite IH. destruct l; reflexivity.
Qed.

Lemma length_lastN {A} n (l : list A) :
  List.length (lastN n l) = Nat.min n (List.length l).
Proof. unfold lastN. rewrite length_skipn. lia. Qed.

(** Pushing onto the last five and shifting keeps the last five. *)
Lemma remember_lastN e g : remember e (lastN 5 g) = lastN 5 (g ++ [e]).
Proof.
  unfold remember.
  assert (Hpush : lastN 5 g ++ [e] = skipn (List.length g - 5) (g ++ [e])).
  { unfold lastN. rewrite skipn_app.
    replace (List.length g - 5 - List.length g)%nat with 0%nat by lia.
    reflexivity. }
  rewrite length_app, length_lastN. cbn [List.length].
  unfold lastN at 3. rewrite length_app. cbn [List.length].
  destruct (Nat.ltb_spec 5 (Nat.min 5 (List.length g) + 1)) as [Hlt|Hge].
  - rewrite Hpush, tl_skipn. f_equal. lia.
  - rewrite Hpush. f_equal. lia.
Qed.

Lemma observeAll_history labels :
  forall g, fst (observeAll labels (lastN 5 g)) = lastN 5 (g ++ labels).
Proof.
  induction labels as [|l labels IH]; intros g.
  - now rewrite app_nil_r.
  - cbn [observeAll]. unfold getStableEmotion. rewrite remember_lastN.
    specialize (IH (g ++ [l])).
    destruct (observeAll labels (lastN 5 (g ++ [l]))) as [h' out].
    cbn [fst] in *. rewrite IH, <- app_assoc. reflexivity.
Qed.

Lemma observeAll_snoc labels e :
  forall h,
    observeAll (labels ++ [e]) h =
    let '(h1, out) := observeAll labels h in
    let '(h2, s) := getStableEmotion e h1 in
    (h2, out ++ [s]).
Proof.
  induction labels as [|l labels IH]; intros h.
  - reflexivity.
  - cbn [observeAll app]. unfold getStableEmotion in *.
    rewrite IH.
    destruct (observeAll labels (remember l h)) as [h1 out].
    reflexivity.
Qed.

End WindowFacts.

(** ** Properties of the stability filter *)

Open Scope string_scope.
Open Scope list_scope.

(** Decide the comparisons between two symbolic labels. *)
Ltac label_cases A B :=
  destruct (String.eqb_spec A B) as [?|?Hne];
  [ subst; repeat (progress (cbn; rewrite ?String.eqb_refl))
  | let H1 := fresh in let H2 := fresh in
    pose proof (proj2 (String.eqb_neq A B) Hne) as H1;
    pose proof (proj2 (String.eqb_neq B A) (fun E => Hne (eq_sym E))) as H2;
    repeat (progress (cbn; rewrite ?String.eqb_refl, ?H1, ?H2)) ].

(** C3, as stated, fails: after observing Happy, Sad, Sad, Happy the
    history is [Happy, Sad, Sad, Happy], both labels occur twice, "Sad" is
    the label that reaches two occurrences first in a left-to-right scan,
    and [getStableEmotion] returns "Happy". *)
Lemma tie_break_counterexample :
  let call := getStableEmotion "Happy" ["Happy"; "Sad"; "Sad"]%string in
  fst call = ["Happy"; "Sad"; "Sad"; "Happy"]%string
  /\ Tally.occurrences (fst call) "Happy" = 2%nat
  /\ Tally.occurrences (fst call) "Sad" = 2%nat
  /\ Window.firstToReachMax (fst call) = Some "Sad"%string
  /\ Some (snd call) <> Window.firstToReachMax (fst call).
Proof. cbv. repeat split. discriminate. Qed.

(** C3 (amended): for the recognizer's labels, the label returned by
    [getStableEmotion] is the most frequent label of the updated history
    and, among the labels tied at the maximum count, the one whose first
    occurrence in the history comes first: every label standing before
    that occurrence occurs strictly less often.  With history [A,B,B,A]
    the winner is A. *)
Theorem stable_label_is_earliest_most_frequent :
  (forall newEmotion emotionHistory,
      isEmotionLabel newEmotion ->
      Forall isEmotionLabel emotionHistory ->
      let history := fst (getStableEmotion newEmotion emotionHistory) in
      let stable := snd (getStableEmotion newEmotion emotionHistory) in
      exists pre post,
        history = (pre ++ stable :: post)%list
        /\ (forall x, In x pre ->
              (Tally.occurrences history x < Tally.occurrences history stable)%nat)
        /\ (forall x,
              (Tally.occurrences history x <= Tally.occurrences history stable)%nat))
  /\ (forall A B : label,
         isEmotionLabel A -> isEmotionLabel B ->
         getStableEmotion A [A; B; B] = ([A; B; B; A], A)).
Proof.
  split.
  - intros newEmotion emotionHistory _ _. cbn.
    apply mostFrequent_spec, remember_nonempty.
  - intros A B _ _. unfold getStableEmotion, mostFrequent, countOccurrences.
    label_cases A B; reflexivity.
Qed.

Ltac emotion_label :=
  unfold isEmotionLabel, emotionLabels; cbn; auto 10.

Lemma stable_label_is_earliest_most_frequent_witness :
  (exists pre post,
      ["Sad"; "Happy"; "Happy"; "Sad"] = (pre ++ "Sad" :: post)%list
      /\ (forall x, In x pre ->
            (Tally.occurrences ["Sad"; "Happy"; "Happy"; "Sad"] x
             < Tally.occurrences ["Sad"; "Happy"; "Happy"; "Sad"] "Sad")%nat)
      /\ (forall x,
            (Tally.occurrences ["Sad"; "Happy"; "Happy"; "Sad"] x
             <= Tally.occurrences ["Sad"; "Happy"; "Happy"; "Sad"] "Sad")%nat))
  /\ getStableEmotion "Happy" ["Happy"; "Sad"; "Sad"]
     = (["Happy"; "Sad"; "Sad"; "Happy"], "Happy").
Proof.
  split.
  - apply (proj1 stable_label_is_earliest_most_frequent
                 "Sad" ["Sad"; "Happy"; "Happy"]).
    + emotion_label.
    + repeat (apply Forall_cons; [emotion_label|]). apply Forall_nil.
  - apply (proj2 stable_label_is_earliest_most_frequent "Happy" "Sad");
      emotion_label.
Defined.

(** C5: majority vote over a five-label first-in first-out window.  From
    an empty history, observing [A,A,B,A,B] ends with A; observing
    [A,A,A,B,B,B] leaves the history [A,A,B,B,B] and ends with B (A and B
    any two of the recognizer's labels); and after any sequence of
    observations the history is the last five labels observed, so it never
    holds more than five. *)
Theorem majority_vote_over_five_label_window :
  (forall A B : label,
      isEmotionLabel A -> isEmotionLabel B ->
      observeAll [A; A; B; A; B] [] = ([A; A; B; A; B], [A; A; A; A; A]))
  /\ (forall A B : label,
         isEmotionLabel A -> isEmotionLabel B ->
         observeAll [A; A; A; B; B; B] [] = ([A; A; B; B; B], [A; A; A; A; A; B]))
  /\ (forall labels : list label,
         fst (observeAll labels []) = Window.lastN 5 labels
         /\ (List.length (fst (observeAll labels [])) <= 5)%nat).
Proof.
  split; [|split].
  - intros A B _ _.
    unfold observeAll, getStableEmotion, mostFrequent, countOccurrences.
    label_cases A B; reflexivity.
  - intros A B _ _.
    unfold observeAll, getStableEmotion, mostFrequent, countOccurrences.
    label_cases A B; reflexivity.
  - intros labels.
    pose proof (observeAll_history labels []) as Hh.
    change (Window.lastN 5 []) with (@nil label) in Hh. cbn [app] in Hh.
    split; [assumption|].
    rewrite Hh, length_lastN. lia.
Qed.

Lemma majority_vote_over_five_label_window_witness :
  observeAll ["Happy"; "Happy"; "Sad"; "Happy"; "Sad"] []
  = (["Happy"; "Happy"; "Sad"; "Happy"; "Sad"],
     ["Happy"; "Happy"; "Happy"; "Happy"; "Happy"])
  /\ observeAll ["Happy"; "Happy"; "Happy"; "Sad"; "Sad"; "Sad"] []
     = (["Happy"; "Happy"; "Sad"; "Sad"; "Sad"],
        ["Happy"; "Happy"; "Happy"; "Happy"; "Happy"; "Sad"]).
Proof.
  split.
  - apply (proj1 majority_vote_over_five_label_window "Happy" "Sad");
      emotion_label.
  - apply (proj1 (proj2 majority_vote_over_five_label_window) "Happy" "Sad");
      emotion_label.
Defined.

(** C9: every call of [getStableEmotion] returns a label of the history
    as it stands after the push; over a run of calls from a cleared
    history the label returned last is one of the last five labels
    observed; and the first call on a cleared history returns the label
    it was given. *)
Theorem stable_label_is_in_history :
  (forall newEmotion emotionHistory,
      In (snd (getStableEmotion newEmotion emotionHistory))
         (fst (getStableEmotion newEmotion emotionHistory)))
  /\ (forall labels e,
         In (last (snd (observeAll (labels ++ [e]) [])) e)
            (Window.lastN 5 (labels ++ [e])))
  /\ (forall newEmotion, getStableEmotion newEmotion [] = ([newEmotion], newEmotion)).
Proof.
  assert (Hin : forall e h,
             In (snd (getStableEmotion e h)) (fst (getStableEmotion e h))).
  { intros e h. cbn.
    destruct (mostFrequent_spec e (remember e h) (remember_nonempty e h))
      as (pre & post & Heq & _).
    rewrite Heq at 2. apply in_elt. }
  split; [exact Hin | split].
  - intros labels e.
    pose proof (observeAll_history (labels ++ [e]) []) as Hh.
    change (Window.lastN 5 []) with (@nil label) in Hh. cbn [app] in Hh.
    rewrite <- Hh. rewrite observeAll_snoc.
    destruct (observeAll labels []) as [h1 out].
    specialize (Hin e h1). destruct (getStableEmotion e h1) as [h2 s].
    cbn [fst snd] in *. now rewrite last_last.
  - intros newEmotion. unfold getStableEmotion, mostFrequent, countOccurrences.
    reflexivity.
Qed.

(** ** Executions: persistence *)

Section RunFacts.

Local Open Scope Z_scope.

Lemma run_app evs1 evs2 st :
  run (evs1 ++ evs2) st =
  let '(st1, out1) := run evs1 st in
  let '(st2, out2) := run evs2 st1 in
  (st2, (out1 ++ out2)%list).
Proof.
  revert st. induction evs1 as [|ev evs1 IH]; intros st; cbn [run app].
  - destruct (run evs2 st). reflexivity.
  - destruct (step ev st) as [st1 out1]. rewrite IH.
    destruct (run evs1 st1) as [st2 out2].
    destruct (run evs2 st2) as [st3 out3].
    now rewrite app_assoc.
Qed.

Lemma postTimes_app a b : postTimes (a ++ b) = (postTimes a ++ postTimes b)%list.
Proof.
  induction a as [|[] a IH]; cbn; rewrite ?IH; reflexivity.
Qed.

(** [saveEmotion] either does nothing or issues one POST, later than the
    previous one by more than the interval, for a label other than
    "No face detected". *)
Lemma saveEmotion_cases emotion confidence t st :
  saveEmotion emotion confidence t st = (st, [])
  \/ (snd (saveEmotion emotion confidence t st) = [Post emotion confidence t]
      /\ emotion <> NO_FACE
      /\ emotionSaveInterval < t - lastEmotionSaveTime st
      /\ lastEmotionSaveTime (fst (saveEmotion emotion confidence t st)) = t).
Proof.
  unfold saveEmotion.
  destruct (String.eqb_spec emotion NO_FACE) as [Heq|Hne]; cbn [negb andb].
  - now left.
  - destruct (Z.ltb_spec emotionSaveInterval (t - lastEmotionSaveTime st)).
    + right. cbn. repeat split; assumption.
    + now left.
Qed.

Ltac branch :=
  match goal with
  | |- context [if ?c then _ else _] => destruct c eqn:?
  | |- context [match ?x with _ => _ end] => destruct x eqn:?
  end.

(** One handler issues at most one POST, and only through the gate of
    [saveEmotion]. *)
Lemma step_posts ev st :
  (postTimes (snd (step ev st)) = []
   /\ lastEmotionSaveTime (fst (step ev st)) = lastEmotionSaveTime st
   /\ forall e c t, ~ In (Post e c t) (snd (step ev st)))
  \/ (exists (e : label) (t : Z),
         postTimes (snd (step ev st)) = [t]
         /\ emotionSaveInterval < t - lastEmotionSaveTime st
         /\ lastEmotionSaveTime (fst (step ev st)) = t
         /\ e <> NO_FACE
         /\ forall e' c' t', In (Post e' c' t') (snd (step ev st)) -> e' = e).
Proof.
  assert (Hnone : forall (st' : State) (out : list Effect),
             lastEmotionSaveTime st' = lastEmotionSaveTime st ->
             (forall e c t, ~ In (Post e c t) out) ->
             postTimes out = []).
  { intros st' out _ Hno. induction out as [|[] out IH]; cbn; trivial;
      try (apply IH; intros e c t Hin; apply (Hno e c t); now right).
    exfalso. eapply Hno. now left. }
  destruct ev as [granted| |fr|emotion confidence t]; cbn [step].
  - left. unfold startClick. branch; cbn; repeat split; intros ? ? ? [].
  - left. unfold stopClick. repeat branch; cbn; repeat split;
      intros ? ? ? H; cbn in H; intuition discriminate.
  - unfold detectFaces.
    repeat match goal with
           | |- context [saveEmotion ?e ?c ?t ?s] =>
               let H := fresh "Hsave" in
               pose proof (saveEmotion_cases e c t s) as H;
               destruct (saveEmotion e c t s) as [st2 posted] eqn:?
           | _ => branch
           end;
      try (left; cbn; repeat split;
           intros ? ? ? H; cbn in H; intuition discriminate).
    all: destruct Hsave as [Hsave | (Hout & Hne & Hgap & Hlast)];
      [ inversion Hsave; subst; left; cbn; repeat split;
        intros ? ? ? H; cbn in H; intuition discriminate
      | cbn [fst snd] in *; right;
        match type of Hout with
        | _ = [Post ?e _ ?t] => exists e, t
        end;
        subst posted; cbn; repeat split; try assumption;
        intros e' c' t' H; intuition (try discriminate); congruence ].
  - destruct (saveEmotion_cases emotion confidence t st)
      as [Hsave | (Hout & Hne & Hgap & Hlast)].
    + rewrite Hsave. left. cbn. repeat split. intros ? ? ? [].
    + right. exists emotion, t. rewrite Hout. cbn.
      repeat split; try assumption.
      intros e' c' t' [H|[]]. congruence.
Qed.

Lemma run_chained evs :
  forall st, chained (lastEmotionSaveTime st) (postTimes (snd (run evs st))).
Proof.
  induction evs as [|ev evs IH]; intros st; cbn [run].
  - exact I.
  - pose proof (step_posts ev st) as Hstep. specialize (IH (fst (step ev st))).
    destruct (step ev st) as [st1 out1]. cbn [fst snd] in *.
    destruct (run evs st1) as [st2 out2]. cbn [fst snd] in *.
    rewrite postTimes_app.
    destruct Hstep as [(Hnil & Hlast & _) | (e & t & Hone & Hgap & Hlast & _)].
    + rewrite Hnil, <- Hlast. exact IH.
    + rewrite Hone. cbn. split; [assumption|]. now rewrite <- Hlast.
Qed.

Lemma chained_separated times :
  forall last, chained last times -> separated emotionSaveInterval times.
Proof.
  induction times as [|t1 [|t2 rest] IH]; intros last H; cbn; trivial.
  destruct H as [_ [Hgap Hrest]]. split; [lia|].
  apply (IH t1). cbn. now split.
Qed.

Lemma run_never_posts_no_face evs :
  forall st c t, ~ In (Post NO_FACE c t) (snd (run evs st)).
Proof.
  induction evs as [|ev evs IH]; intros st c t; cbn [run].
  - intros [].
  - pose proof (step_posts ev st) as Hstep. specialize (IH (fst (step ev st)) c t).
    destruct (step ev st) as [st1 out1]. cbn [fst snd] in *.
    destruct (run evs st1) as [st2 out2]. cbn [fst snd] in *.
    intros Hin. apply in_app_or in Hin. destruct Hin as [Hin|Hin]; [|auto].
    destruct Hstep as [(_ & _ & Hno) | (e & t0 & _ & _ & _ & Hne & Honly)].
    + exact (Hno _ _ _ Hin).
    + apply Honly in Hin. congruence.
Qed.

(** Only the recognizer's labels ever enter the history. *)
Lemma mapEmotion_label ex : isEmotionLabel (fst (mapEmotion ex)).
Proof.
  unfold mapEmotion.
  destruct (fold_left _ ex (0%float, "Neutral"%string)) as [maxValue maxEmotion].
  cbn [fst]. unfold isEmotionLabel, emotionMap, emotionLabels, lookup.
  repeat match goal with
         | |- context [String.eqb ?a ?b] => destruct (String.eqb a b)
         end; cbn; tauto.
Qed.

Lemma remember_incl e h x : In x (remember e h) -> x = e \/ In x h.
Proof.
  unfold remember. intros Hin.
  assert (Hpushed : In x (h ++ [e])%list).
  { destruct (Nat.ltb 5 (List.length (h ++ [e])%list)); [|assumption].
    destruct (h ++ [e])%list; [destruct Hin | now right]. }
  apply in_app_or in Hpushed. cbn in Hpushed. intuition congruence.
Qed.

Lemma step_history_labels ev st :
  Forall isEmotionLabel (emotionHistory st) ->
  Forall isEmotionLabel (emotionHistory (fst (step ev st))).
Proof.
  intros Hst.
  assert (Hpush : forall ex,
             Forall isEmotionLabel
                    (remember (fst (mapEmotion ex)) (emotionHistory st))).
  { intros ex. apply Forall_forall. intros x Hx.
    apply remember_incl in Hx. destruct Hx as [->|Hx].
    - apply mapEmotion_label.
    - revert x Hx. now apply Forall_forall. }
  destruct ev as [granted| |fr|emotion confidence t]; cbn [step].
  - unfold startClick. branch; assumption.
  - unfold stopClick. branch; assumption.
  - unfold detectFaces, getStableEmotion, saveEmotion.
    repeat match goal with
           | |- context [mapEmotion ?ex] =>
               let H := fresh "Hpush" in
               pose proof (Hpush ex) as H;
               destruct (mapEmotion ex) as [emotion confidence]
           | _ => branch
           end; cbn in *; try assumption; constructor.
  - unfold saveEmotion. branch; assumption.
Qed.

Lemma run_history_labels evs :
  forall st,
    Forall isEmotionLabel (emotionHistory st) ->
    Forall isEmotionLabel (emotionHistory (fst (run evs st))).
Proof.
  induction evs as [|ev evs IH]; intros st Hst; cbn [run].
  - assumption.
  - pose proof (step_history_labels ev st Hst) as Hstep.
    destruct (step ev st) as [st1 out1]. cbn [fst] in Hstep.
    specialize (IH st1 Hstep).
    destruct (run evs st1) as [st2 out2]. assumption.
Qed.

(** In every execution from the loaded page the history holds only the
    recognizer's labels. *)
Lemma reachable_history_labels evs pageText :
  Forall isEmotionLabel (emotionHistory (fst (run evs (initial pageText)))).
Proof. apply run_history_labels. constructor. Qed.

End RunFacts.

(** ** The sustained-absence counter *)

Section AbsenceFacts.

Local Open Scope Z_scope.


(** A sampled frame without a detection: the counter goes up by one and
    the smoothing state is reset exactly when the new count exceeds five
    while an emotion is on display. *)
Lemma absent_frame fr st :
  isStreaming st = true ->
  detectionInterval <= now fr - lastDetectionTime st ->
  videoReady fr = true ->
  noDetection fr ->
  let st' := fst (detectFaces fr st) in
  isStreaming st' = true
  /\ lastDetectionTime st' = now fr
  /\ noFaceDetectionCount st' = noFaceDetectionCount st + 1
  /\ (if (5 <? noFaceDetectionCount st + 1)
         && negb (String.eqb (currentEmotion st) NO_FACE)
      then currentEmotion st' = NO_FACE /\ emotionHistory st' = []
      else currentEmotion st' = currentEmotion st
           /\ emotionHistory st' = emotionHistory st).
Proof.
  intros Hstream Hgate Hready Hnone. unfold noDetection in Hnone.
  unfold detectFaces. rewrite Hstream, Hready, Hnone. cbn [negb].
  destruct (Z.ltb_spec (now fr - lastDetectionTime st) detectionInterval);
    [lia|].
  cbn [noFaceDetectionCount currentEmotion].
  destruct ((5 <? noFaceDetectionCount st + 1)
            && negb (String.eqb (currentEmotion st) NO_FACE));
    cbn; repeat split; assumption.
Qed.

Lemma ticks_cons fr frames st :
  ticks (fr :: frames) st = ticks frames (fst (detectFaces fr st)).
Proof.
  unfold ticks. cbn [map run step].
  destruct (detectFaces fr st) as [st1 out1]. cbn [fst].
  destruct (run (map Tick frames) st1). reflexivity.
Qed.

(** A run of sampled frames without a detection. *)
Lemma absent_run frames :
  forall st,
    isStreaming st = true ->
    sampled (lastDetectionTime st) frames ->
    Forall noDetection frames ->
    let n := Z.of_nat (List.length frames) in
    let st' := ticks frames st in
    noFaceDetectionCount st' = noFaceDetectionCount st + n
    /\ (noFaceDetectionCount st + n <= 5 ->
        currentEmotion st' = currentEmotion st
        /\ emotionHistory st' = emotionHistory st)
    /\ (currentEmotion st = NO_FACE ->
        currentEmotion st' = NO_FACE
        /\ emotionHistory st' = emotionHistory st)
    /\ (0 <= noFaceDetectionCount st -> 5 < noFaceDetectionCount st + n ->
        frames <> [] -> currentEmotion st <> NO_FACE ->
        currentEmotion st' = NO_FACE /\ emotionHistory st' = []).
Proof.
  induction frames as [|fr frames IH]; intros st Hstream Hsampled Hall.
  - cbn. repeat split; try lia; try reflexivity; try assumption; congruence.
  - destruct Hsampled as (Hgate & Hready & Hrest).
    inversion Hall as [|? ? Hnone Hall']; subst.
    destruct (absent_frame fr st Hstream Hgate Hready Hnone)
      as (Hs1 & Hlast1 & Hcount1 & Hreset).
    cbn zeta. rewrite ticks_cons.
    set (st1 := fst (detectFaces fr st)) in *.
    rewrite <- Hlast1 in Hrest.
    destruct (IH st1 Hs1 Hrest Hall') as (Hcount & Hkeep & Hidle & Hfire).
    cbn zeta in *.
    replace (Z.of_nat (List.length (fr :: frames)))
      with (1 + Z.of_nat (List.length frames))
      by (cbn [List.length]; lia).
    split; [lia|]. split; [|split].
    + intros Hle.
      destruct (Z.ltb_spec 5 (noFaceDetectionCount st + 1)); [lia|].
      cbn [andb] in Hreset. destruct Hreset as [Hc He].
      destruct Hkeep as [Hc' He']; [lia|]. split; congruence.
    + intros Hno.
      rewrite Hno, String.eqb_refl, andb_false_r in Hreset.
      destruct Hreset as [Hc He].
      destruct Hidle as [Hc' He']; [congruence|]. split; congruence.
    + intros Hpos Hgt _ Hcur.
      apply String.eqb_neq in Hcur. rewrite Hcur in Hreset.
      cbn [negb] in Hreset. rewrite andb_true_r in Hreset.
      destruct (Z.ltb_spec 5 (noFaceDetectionCount st + 1)).
      * destruct Hreset as [Hc He].
        destruct Hidle as [Hc' He']; [assumption|]. split; congruence.
      * destruct Hreset as [Hc He].
        destruct frames as [|fr2 frames].
        { cbn [List.length] in Hgt. lia. }
        destruct Hfire as [Hc' He']; try lia; try discriminate.
        { rewrite Hc. now apply String.eqb_neq. }
        split; assumption.
Qed.

End AbsenceFacts.

(** * Properties of the detection loop and of persistence *)

(** C6: from a state in which an emotion is on display and the absence
    counter is 0, consecutive sampled frames without a detection are
    counted one by one; up to five of them (so four of them too) leave the
    current emotion and the history as they were; from the sixth on the
    current emotion is "No face detected" and the history is empty: the
    test is [noFaceDetectionCount > 5] after the increment, so the fifth
    frame changes nothing and the sixth resets; and a sampled frame with a
    detection puts the counter back to 0. *)
Theorem sustained_absence_threshold :
  (forall st frames,
      isStreaming st = true ->
      noFaceDetectionCount st = 0%Z ->
      currentEmotion st <> NO_FACE ->
      Runs.sampled (lastDetectionTime st) frames ->
      Forall Runs.noDetection frames ->
      noFaceDetectionCount (Runs.ticks frames st)
      = Z.of_nat (List.length frames)
      /\ ((List.length frames <= 5)%nat ->
          currentEmotion (Runs.ticks frames st) = currentEmotion st
          /\ emotionHistory (Runs.ticks frames st) = emotionHistory st)
      /\ ((6 <= List.length frames)%nat ->
          currentEmotion (Runs.ticks frames st) = NO_FACE
          /\ emotionHistory (Runs.ticks frames st) = []))
  /\ (forall st fr,
         isStreaming st = true ->
         (detectionInterval <= now fr - lastDetectionTime st)%Z ->
         videoReady fr = true ->
         detections fr <> [] ->
         noFaceDetectionCount (fst (detectFaces fr st)) = 0%Z).
Proof.
  split.
  - intros st frames Hstream Hzero Hcur Hsampled Hall.
    destruct (absent_run frames st Hstream Hsampled Hall)
      as (Hcount & Hkeep & _ & Hfire).
    cbn zeta in *. rewrite Hzero in *. split; [|split].
    + rewrite Hcount. lia.
    + intros Hlen. apply Hkeep. lia.
    + intros Hlen. apply Hfire; try lia; try assumption.
      intros ->. cbn [List.length] in Hlen. lia.
  - intros st fr Hstream Hgate Hready Hsome.
    unfold detectFaces. rewrite Hstream, Hready. cbn [negb].
    destruct (Z.ltb_spec (now fr - lastDetectionTime st) detectionInterval);
      [lia|].
    destruct (detections fr) as [|detection rest]; [congruence|].
    destruct (expressions detection) as [ex|]; [|reflexivity].
    destruct (mapEmotion ex) as [emotion confidence].
    destruct (0.2 <? confidence)%float; [|reflexivity].
    cbn [getStableEmotion].
    unfold getStableEmotion.
    destruct (negb (String.eqb _ _)); [|reflexivity].
    unfold saveEmotion.
    destruct (_ && _); reflexivity.
Qed.

Lemma sustained_absence_threshold_witness :
  (currentEmotion (Runs.ticks (firstn 5 sixEmptyFrames) watching)
   = currentEmotion watching
   /\ emotionHistory (Runs.ticks (firstn 5 sixEmptyFrames) watching)
      = emotionHistory watching)
  /\ (currentEmotion (Runs.ticks sixEmptyFrames watching) = NO_FACE
      /\ emotionHistory (Runs.ticks sixEmptyFrames watching) = [])
  /\ noFaceDetectionCount (Runs.ticks sixEmptyFrames watching) = 6%Z
  /\ noFaceDetectionCount
       (fst (detectFaces (Runs.frameAt 1700000004000 [Runs.happyFace])
                         (Runs.ticks sixEmptyFrames watching))) = 0%Z.
Proof.
  split; [|split; [|split]].
  - apply (proj1 sustained_absence_threshold watching
             (firstn 5 sixEmptyFrames)); try reflexivity.
    + vm_compute. discriminate.
    + vm_compute. repeat split; discriminate.
    + repeat constructor.
  - apply (proj1 sustained_absence_threshold watching sixEmptyFrames);
      try reflexivity.
    + vm_compute. discriminate.
    + vm_compute. repeat split; discriminate.
    + repeat constructor.
  - apply (proj1 sustained_absence_threshold watching sixEmptyFrames);
      try reflexivity.
    + vm_compute. discriminate.
    + vm_compute. repeat split; discriminate.
    + repeat constructor.
  - apply (proj2 sustained_absence_threshold); try reflexivity.
    + vm_compute. discriminate.
    + cbn. discriminate.
Defined.

(** C8: in every execution of the handlers of camera.js, with arbitrary
    clock readings and arbitrary further calls of [saveEmotion], two
    successive POST requests are at least 2000 ms apart on the clock that
    [saveEmotion] reads. *)
Theorem persistence_is_rate_limited :
  forall (evs : list Event) (st : State),
    separated 2000 (postTimes (snd (run evs st))).
Proof.
  intros evs st.
  apply (chained_separated _ (lastEmotionSaveTime st)), run_chained.
Qed.

(** C10: [saveEmotion] called with "No face detected" changes nothing and
    issues no request, and no execution contains a POST for that label. *)
Theorem no_face_label_is_never_persisted :
  (forall confidence t st, saveEmotion NO_FACE confidence t st = (st, []))
  /\ (forall evs st confidence t,
         ~ In (Post NO_FACE confidence t) (snd (run evs st))).
Proof.
  split.
  - intros confidence t st. reflexivity.
  - intros evs st confidence t. apply run_never_posts_no_face.
Qed.

(** The gate at work: three calls 2001 ms, then exactly 2000 ms, apart;
    the first two are sent and the third is dropped. *)
Example two_posts_then_a_dropped_call :
  postTimes (snd (run [Save "Happy" 0.9%float 1700000000000;
                       Save "Sad" 0.8%float 1700000002001;
                       Save "Happy" 0.7%float 1700000004001]
                      (initial "")))
  = [1700000000000; 1700000002001]%Z.
Proof. vm_compute. reflexivity. Qed.

(** * The stop button *)

(** C4 on the code: the stop handler releases the stream and clears
    [isStreaming], after which [detectFaces] does nothing, but it leaves
    [emotionHistory], [currentEmotion] and [noFaceDetectionCount] as they
    were.  After a session that saw a happy face the history still holds
    "Happy" and the current emotion is still "Happy" under a display that
    reads "Waiting for detection..."; in the next session a happy face is
    counted on top of the old history and the display is not updated. *)
Theorem stop_keeps_smoothing_state :
  (forall st,
      emotionHistory (fst (stopClick st)) = emotionHistory st
      /\ currentEmotion (fst (stopClick st)) = currentEmotion st
      /\ noFaceDetectionCount (fst (stopClick st)) = noFaceDetectionCount st)
  /\ (forall st fr,
         isStreaming (fst (stopClick st)) = false
         /\ detectFaces fr (fst (stopClick st)) = (fst (stopClick st), []))
  /\ (let stopped := fst (run Runs.firstSession (initial "")) in
      isStreaming stopped = false
      /\ stream stopped = None
      /\ emotionHistory stopped = ["Happy"]
      /\ currentEmotion stopped = "Happy"
      /\ emotionDisplay stopped = "Waiting for detection..."
      /\ let again := run Runs.secondSession stopped in
         emotionHistory (fst again) = ["Happy"; "Happy"]
         /\ emotionDisplay (fst again) = "Waiting for detection..."
         /\ ~ In (UpdateDisplay "Happy") (snd again))
  /\ (let fresh := run Runs.secondSession (initial "") in
      emotionHistory (fst fresh) = ["Happy"]
      /\ emotionDisplay (fst fresh) = "Happy"
      /\ In (UpdateDisplay "Happy") (snd fresh)).
Proof.
  split; [|split; [|split]].
  - intros st. unfold stopClick. destruct (isStreaming st); cbn; auto.
  - intros st fr. unfold stopClick, detectFaces.
    destruct (isStreaming st) eqn:Hstream; cbn; [|rewrite Hstream];
      split; reflexivity.
  - vm_compute. repeat split.
    intros H. repeat (destruct H as [H|H]; [discriminate|]). exact H.
  - vm_compute. repeat split. right. left. reflexivity.
Qed.

(** ** What the clamp and the square root do guarantee *)

Section FloatFacts.

Local Open Scope float_scope.

Lemma SFcompare_refl f : f <> S754_nan -> SFcompare f f = Some Eq.
Proof.
  destruct f as [s|s| |s m e]; intros Hnan; try congruence; cbn.
  - reflexivity.
  - destruct s; reflexivity.
  - destruct s; rewrite Z.compare_refl;
      change (Pos.compare_cont Eq m m) with (Pos.compare m m);
      now rewrite Pos.compare_refl.
Qed.

Lemma is_nan_Prim2SF x :
  is_nan x = match Prim2SF x with S754_nan => true | _ => false end.
Proof.
  unfold is_nan. rewrite eqb_spec. unfold SFeqb.
  destruct (Prim2SF x) eqn:Hx; try reflexivity;
    rewrite SFcompare_refl by discriminate; reflexivity.
Qed.

Lemma SFcompare_antisym f g :
  SFcompare g f = option_map CompOpp (SFcompare f g).
Proof.
  destruct f as [s|s| |s m e], g as [s'|s'| |s' m' e']; cbn;
    try destruct s; try destruct s'; try reflexivity;
    rewrite (Z.compare_antisym e' e);
    change (Pos.compare_cont Eq m m') with (Pos.compare m m');
    change (Pos.compare_cont Eq m' m) with (Pos.compare m' m);
    rewrite (Pos.compare_antisym m' m);
    destruct (Z.compare e' e); cbn; try reflexivity;
    destruct (Pos.compare m' m); reflexivity.
Qed.

Lemma SFcompare_None f g :
  SFcompare f g = None -> f = S754_nan \/ g = S754_nan.
Proof.
  destruct f as [s|s| |s m e], g as [s'|s'| |s' m' e']; cbn; auto;
    try destruct s; try destruct s'; discriminate.
Qed.

Lemma ltb_leb x y : (x <? y) = true -> (x <=? y) = true.
Proof.
  rewrite ltb_spec, leb_spec. unfold SFltb, SFleb.
  destruct (SFcompare (Prim2SF x) (Prim2SF y)) as [[]|]; congruence.
Qed.

Lemma ltb_false_leb x y :
  is_nan x = false -> is_nan y = false -> (y <? x) = false -> (x <=? y) = true.
Proof.
  rewrite !is_nan_Prim2SF, ltb_spec, leb_spec. unfold SFltb, SFleb.
  rewrite (SFcompare_antisym (Prim2SF x) (Prim2SF y)).
  intros Hx Hy.
  destruct (SFcompare (Prim2SF x) (Prim2SF y)) as [[]|] eqn:Hc; cbn;
    try congruence.
  apply SFcompare_None in Hc. destruct Hc as [Hc|Hc]; rewrite Hc in *;
    discriminate.
Qed.

(** [Math.max(0, x)] of a number is that number when it is above 0, and 0
    otherwise. *)
Lemma max_zero x :
  is_nan x = false -> JS.max 0 x = if 0 <? x then x else 0.
Proof.
  intros Hx. unfold JS.max. rewrite Hx.
  change (is_nan 0) with false. cbn [orb].
  change (get_sign 0) with false.
  destruct (0 <? x); [reflexivity|]. destruct (x <? 0); reflexivity.
Qed.

(** The clamp of anything but NaN lies in [0,1]. *)
Lemma clamp01_in_unit_interval x :
  is_nan x = false -> in01 (clamp01 x) = true.
Proof.
  intros Hx. unfold clamp01. rewrite (max_zero x Hx).
  destruct (0 <? x) eqn:Hpos; [|reflexivity].
  unfold JS.min. rewrite Hx.
  change (is_nan 1) with false. cbn [orb].
  change (get_sign 1) with false.
  destruct (1 <? x) eqn:Habove; [reflexivity|].
  assert (Hin : in01 x = true).
  { unfold in01. rewrite (ltb_leb _ _ Hpos). cbn [andb].
    now apply ltb_false_leb. }
  destruct (x <? 1); exact Hin.
Qed.

(** NaN goes through the clamp. *)
Lemma clamp01_nan x : is_nan x = true -> is_nan (clamp01 x) = true.
Proof.
  intros Hx. unfold clamp01, JS.max. rewrite Hx, orb_true_r.
  reflexivity.
Qed.

(** Each clamped field of the returned record is in [0,1] unless the
    value computed for it is NaN. *)
Lemma clamped_fields_in_unit_interval_or_nan frequencyData :
  let r := calculateAudioFeatures frequencyData in
  Forall (fun v => in01 v = true \/ is_nan v = true)
         [pitch r; volume r; speechRate r; spectralCentroid r; spectralSpread r].
Proof.
  assert (Hclamp : forall x, in01 (clamp01 x) = true \/ is_nan (clamp01 x) = true).
  { intros x. destruct (is_nan x) eqn:Hx.
    - right. now apply clamp01_nan.
    - left. now apply clamp01_in_unit_interval. }
  cbv zeta. unfold calculateAudioFeatures.
  cbn [pitch volume speechRate spectralCentroid spectralSpread].
  repeat (apply Forall_cons; [apply Hclamp|]). apply Forall_nil.
Qed.

(** A square root is never below 0. *)
Lemma sqrt_not_negative x : (sqrt x <? 0) = false.
Proof.
  rewrite ltb_spec, sqrt_spec.
  change (Prim2SF 0) with (S754_zero false).
  unfold SF64sqrt, SFsqrt, SFltb.
  destruct (Prim2SF x) as [s|s| |s m e]; try (destruct s; reflexivity);
    try reflexivity.
  destruct s; [reflexivity|].
  destruct (SFsqrt_core_binary prec emax (Z.pos m) e) as [[mz ez] lz].
  unfold binary_round_aux.
  destruct (shr_fexp prec emax mz ez lz) as [mrs' e'].
  destruct (shr_fexp prec emax _ e' loc_Exact) as [mrs'' e''].
  destruct (shr_m mrs''); try reflexivity.
  destruct (Z.leb e'' (emax - prec)); reflexivity.
Qed.

(** X8: the spread is never negative: on every snapshot it is NaN or at
    least 0. *)
Lemma spread_never_negative frequencyData :
  (spreadOf frequencyData <? 0) = false
  /\ (is_nan (spreadOf frequencyData) = true
      \/ (0 <=? spreadOf frequencyData) = true).
Proof.
  assert (Hneg : (spreadOf frequencyData <? 0) = false)
    by apply sqrt_not_negative.
  split; [assumption|].
  destruct (is_nan (spreadOf frequencyData)) eqn:Hnan; [now left|right].
  now apply ltb_false_leb.
Qed.

End FloatFacts.

(** * Properties of [calculateAudioFeatures] *)


Lemma silence_is_snapshot : is_snapshot silence.
Proof.
  unfold is_snapshot, silence. apply Forall_forall. intros v Hv.
  apply repeat_spec in Hv. subst. lia.
Qed.

(** The model on a uniform snapshot, 1024 bins at 128: the total energy
    is 128/255 and the centroid sits just under the middle. *)
Example uniform_snapshot :
  let r := calculateAudioFeatures (repeat 128%Z 1024) in
  totalEnergy r = 0.50196078431372548%float
  /\ spectralCentroid r = 0.49951171875%float
  /\ Forall (fun v => in01 v = true)
            [pitch r; volume r; speechRate r; spectralCentroid r;
             spectralSpread r].
Proof. vm_compute. repeat constructor. Qed.

(** C1 on the code: on the all-zero snapshot of 1024 bins the call returns,
    [spectralCentroid] (the one guarded division) and [volume] are 0, but
    [pitch], [speechRate] and [spectralSpread] are NaN, not 0; on the
    empty snapshot every field but [spectralCentroid] is NaN. *)
Theorem silence_ratios_are_nan :
  is_snapshot silence
  /\ (let r := calculateAudioFeatures silence in
      spectralCentroid r = 0%float
      /\ volume r = 0%float
      /\ is_nan (pitch r) = true
      /\ is_nan (speechRate r) = true
      /\ is_nan (spectralSpread r) = true)
  /\ (let r := calculateAudioFeatures [] in
      spectralCentroid r = 0%float
      /\ is_nan (pitch r) = true
      /\ is_nan (volume r) = true
      /\ is_nan (speechRate r) = true
      /\ is_nan (spectralSpread r) = true).
Proof.
  split; [exact silence_is_snapshot|].
  split; vm_compute; repeat split.
Qed.

(** C2 on the code: on the all-zero snapshot three of the five clamped
    fields are outside [0,1] (they are NaN, which the clamp lets
    through). *)
Theorem silence_fields_outside_unit_interval :
  let r := calculateAudioFeatures silence in
  in01 (pitch r) = false
  /\ in01 (speechRate r) = false
  /\ in01 (spectralSpread r) = false
  /\ in01 (volume r) = true
  /\ in01 (spectralCentroid r) = true.
Proof. vm_compute. repeat split. Qed.

(** C7 on the code: on the all-zero snapshot the spread, the square root
    of 0/0, is NaN, so it is not greater than or equal to 0, and neither
    is [consistency]. *)
Theorem silence_spread_is_not_nonnegative :
  (0 <=? spreadOf silence)%float = false
  /\ is_nan (spreadOf silence) = true
  /\ is_nan (consistency (calculateAudioFeatures silence)) = true.
Proof. vm_compute. repeat split. Qed.

(** * Part III: further properties of the code *)

Import Scores Reach Dashboard Dropouts Zeros Bands.

(** ** Order of floating-point numbers *)

Section FloatOrder.
Local Open Scope Z_scope.

Lemma lex_lt e1 m1 e2 m2 :
  match Z.compare e1 e2 with
  | Lt => Lt | Gt => Gt | Eq => Pos.compare_cont Eq m1 m2
  end = Lt <-> (e1 < e2 \/ (e1 = e2 /\ Z.pos m1 < Z.pos m2)).
Proof.
  change (Pos.compare_cont Eq m1 m2) with (Pos.compare m1 m2).
  destruct (Z.compare_spec e1 e2); destruct (Pos.compare_spec m1 m2);
    split; intros H'; try discriminate; try reflexivity; try lia.
Qed.

Lemma lex_gt e1 m1 e2 m2 :
  match Z.compare e1 e2 with
  | Lt => Gt | Gt => Lt | Eq => CompOpp (Pos.compare_cont Eq m1 m2)
  end = Lt <-> (e2 < e1 \/ (e1 = e2 /\ Z.pos m2 < Z.pos m1)).
Proof.
  change (Pos.compare_cont Eq m1 m2) with (Pos.compare m1 m2).
  destruct (Z.compare_spec e1 e2); destruct (Pos.compare_spec m1 m2);
    split; intros H'; cbn in *; try discriminate; try reflexivity; try lia.
Qed.

Lemma SFltb_trans a b c :
  SFltb a b = true -> SFltb b c = true -> SFltb a c = true.
Proof.
  unfold SFltb.
  destruct a as [sa|sa| |sa ma ea], b as [sb|sb| |sb mb eb],
           c as [sc|sc| |sc mc ec]; cbn;
    try destruct sa; try destruct sb; try destruct sc; cbn;
    try discriminate; try reflexivity; intros Hab Hbc.
  all: match goal with
       | H : match ?x with _ => _ end = true |- _ => idtac
       end.
  all: repeat match goal with
       | H : match ?x with Eq => false | Lt => true | Gt => false end = true |- _ =>
           let E := fresh "E" in destruct x eqn:E; try discriminate; clear H
       | |- match ?x with Eq => false | Lt => true | Gt => false end = true =>
           let E := fresh "E" in
           assert (E : x = Lt); [|now rewrite E]
       end.
  - apply lex_gt. apply lex_gt in E, E0. lia.
  - apply lex_lt. apply lex_lt in E, E0. lia.
Qed.

End FloatOrder.

(** ** [mapEmotion] *)

Section MapEmotionFacts.
Local Open Scope float_scope.

Lemma ltb_trans a b c : (a <? b) = true -> (b <? c) = true -> (a <? c) = true.
Proof. rewrite !ltb_spec. apply SFltb_trans. Qed.

Lemma ltb_irrefl a : (a <? a) = false.
Proof.
  rewrite ltb_spec. unfold SFltb.
  destruct (Prim2SF a) as [s|s| |s m e] eqn:Ha; try reflexivity;
    rewrite SFcompare_refl by discriminate; reflexivity.
Qed.

Lemma scanScores_spec ex :
  forall m0 e0,
    let m := fst (scanScores ex (m0, e0)) in
    let e := snd (scanScores ex (m0, e0)) in
    (forall x, (m0 <? x) = false -> (m <? x) = false)
    /\ Forall (fun kv => (m <? snd kv) = false) ex
    /\ (((m, e) = (m0, e0) /\ Forall (fun kv => (m0 <? snd kv) = false) ex)
        \/ (In (e, m) ex /\ (m0 <? m) = true)).
Proof.
  induction ex as [|[k v] rest IH]; intros m0 e0.
  - cbn. repeat split; auto.
  - change (scanScores ((k, v) :: rest) (m0, e0))
      with (scanScores rest (if m0 <? v then (v, k) else (m0, e0))).
    destruct (m0 <? v) eqn:Hlt.
    + specialize (IH v k). cbn zeta in *.
      destruct (scanScores rest (v, k)) as [m e]. cbn [fst snd] in *.
      destruct IH as (Hmono & Hall & Hwho).
      assert (Hup : forall x, (m0 <? x) = false -> (m <? x) = false).
      { intros x Hx. apply Hmono.
        destruct (v <? x) eqn:Hvx; [|reflexivity].
        rewrite (ltb_trans _ _ _ Hlt Hvx) in Hx. discriminate. }
      split; [exact Hup|]. split.
      * constructor; [|exact Hall]. cbn. apply Hmono, ltb_irrefl.
      * right. destruct Hwho as [[Heq _] | [Hin Hgt]].
        -- injection Heq as -> ->. split; [now left | exact Hlt].
        -- split; [now right|]. exact (ltb_trans _ _ _ Hlt Hgt).
    + specialize (IH m0 e0). cbn zeta in *.
      destruct (scanScores rest (m0, e0)) as [m e]. cbn [fst snd] in *.
      destruct IH as (Hmono & Hall & Hwho).
      split; [exact Hmono|]. split.
      * constructor; [|exact Hall]. cbn. now apply Hmono.
      * destruct Hwho as [[Heq Hrest] | [Hin Hgt]].
        -- left. split; [assumption|]. constructor; assumption.
        -- right. split; [now right | assumption].
Qed.

(** X1: [mapEmotion] returns one of the seven labels together with the
    top score: no score of the frame is greater than the confidence it
    returns; the confidence is 0 with label "Neutral" when no score is
    above 0, and otherwise it is a score of the frame, above 0, whose key
    gives the label. *)
Theorem mapEmotion_reports_the_top_score ex :
  let emotion := fst (mapEmotion ex) in
  let confidence := snd (mapEmotion ex) in
  isEmotionLabel emotion
  /\ Forall (fun kv => (confidence <? snd kv) = false) ex
  /\ ((confidence = 0 /\ emotion = "Neutral"
       /\ Forall (fun kv => (0 <? snd kv) = false) ex)
      \/ (exists k, In (k, confidence) ex /\ (0 <? confidence) = true
                    /\ emotion = match lookup k emotionMap with
                                 | Some l => l
                                 | None => "Neutral"
                                 end)).
Proof.
  cbn zeta. split; [apply mapEmotion_label|].
  pose proof (scanScores_spec ex 0 "Neutral") as Hscan. cbn zeta in Hscan.
  unfold mapEmotion. unfold scanScores in Hscan.
  destruct (fold_left _ ex (0, "Neutral")) as [maxValue maxEmotion].
  cbn [fst snd] in *. destruct Hscan as (_ & Hall & Hwho).
  split; [exact Hall|].
  destruct Hwho as [[Heq Hnone] | [Hin Hgt]].
  - left. inversion Heq; subst. repeat split. exact Hnone.
  - right. exists maxEmotion. repeat split; assumption.
Qed.

End MapEmotionFacts.

(** ** More on the stability filter *)

Section FilterFacts.

(** Two different labels cannot both fill more than half of a list. *)
Lemma occurrences_disjoint x y h :
  x <> y -> (occurrences h x + occurrences h y <= List.length h)%nat.
Proof.
  intros Hne. unfold occurrences. induction h as [|a h IH]; cbn; [lia|].
  destruct (string_dec a x), (string_dec a y); subst; try congruence; lia.
Qed.

(** X4: a label that fills more than half of the updated history is the
    one [getStableEmotion] returns (the recognizer's labels). *)
Theorem strict_majority_wins newEmotion emotionHistory x :
  isEmotionLabel newEmotion ->
  Forall isEmotionLabel emotionHistory ->
  let history := fst (getStableEmotion newEmotion emotionHistory) in
  (List.length history < 2 * occurrences history x)%nat ->
  snd (getStableEmotion newEmotion emotionHistory) = x.
Proof.
  intros _ _. unfold getStableEmotion. cbn [fst snd]. intros Hmaj.
  destruct (mostFrequent_spec newEmotion (remember newEmotion emotionHistory)
              (remember_nonempty _ _)) as (pre & post & _ & _ & Hmax).
  destruct (string_dec (mostFrequent newEmotion (remember newEmotion emotionHistory)) x)
    as [Heq|Hne]; [assumption|].
  pose proof (occurrences_disjoint _ _ (remember newEmotion emotionHistory) Hne).
  specialize (Hmax x). lia.
Qed.

Lemma strict_majority_wins_witness :
  snd (getStableEmotion "Sad" ["Happy"; "Sad"; "Happy"; "Happy"]) = "Happy".
Proof.
  apply strict_majority_wins.
  - unfold isEmotionLabel, emotionLabels; cbn; auto 10.
  - repeat (apply Forall_cons; [unfold isEmotionLabel, emotionLabels; cbn; auto 10|]).
    apply Forall_nil.
  - cbn. lia.
Defined.

(** The default label only matters for an empty history. *)
Lemma mostFrequent_default d d' h :
  h <> [] -> mostFrequent d h = mostFrequent d' h.
Proof.
  intros Hne. unfold mostFrequent. rewrite countOccurrences_tally.
  destruct h as [|a h]; [congruence|].
  destruct (firstSeen (a :: h)) as [|k ks] eqn:Hkeys.
  - assert (Hin : In a (firstSeen (a :: h))) by (apply In_firstSeen; now left).
    rewrite Hkeys in Hin. destruct Hin.
  - assert (Hpos : (0 < occurrences (a :: h) k)%nat).
    { unfold occurrences. apply count_occ_In. apply In_firstSeen.
      rewrite Hkeys. now left. }
    cbn [tallyOf map fold_left]. unfold pick at 2 4.
    destruct (Nat.ltb_spec 0 (occurrences (a :: h) k)); [reflexivity|lia].
Qed.

Lemma mostFrequent_In d h : h <> [] -> In (mostFrequent d h) h.
Proof.
  intros Hne. destruct (mostFrequent_spec d h Hne) as (pre & post & Heq & _).
  rewrite Heq at 2. apply in_elt.
Qed.

Lemma length_remember e h :
  (List.length h <= 5)%nat -> (List.length (remember e h) <= 5)%nat.
Proof.
  intros Hlen. unfold remember.
  destruct (Nat.ltb_spec 5 (List.length (h ++ [e]))) as [Hlt|Hge]; [|assumption].
  rewrite length_app in Hlt. cbn in Hlt.
  destruct (h ++ [e]) eqn:Hp; cbn; [lia|].
  apply (f_equal (@List.length _)) in Hp. rewrite length_app in Hp. cbn in Hp. lia.
Qed.

Lemma NO_FACE_not_label : ~ isEmotionLabel NO_FACE.
Proof.
  unfold isEmotionLabel, emotionLabels, NO_FACE. cbn.
  intros H. repeat (destruct H as [H|H]; [discriminate|]). exact H.
Qed.

End FilterFacts.

(** ** What every reachable state satisfies *)

Section Invariant.
Local Open Scope Z_scope.

Ltac branch :=
  match goal with
  | |- context [if ?c then _ else _] => destruct c eqn:?
  | |- context [match ?x with _ => _ end] => destruct x eqn:?
  end.

Lemma step_consistent ev st : consistent st -> consistent (fst (step ev st)).
Proof.
  intros (Hcur & Hlen & Hlab & Hcount).
  assert (Hpush : forall ex,
             let h := remember (fst (mapEmotion ex)) (emotionHistory st) in
             (List.length h <= 5)%nat /\ Forall isEmotionLabel h
             /\ mostFrequent (fst (mapEmotion ex)) h = mostFrequent NO_FACE h).
  { intros ex. cbn zeta. split; [now apply length_remember|]. split.
    - apply Forall_forall. intros x Hx. apply remember_incl in Hx.
      destruct Hx as [->|Hx]; [apply mapEmotion_label|].
      revert x Hx. now apply Forall_forall.
    - apply mostFrequent_default, remember_nonempty. }
  destruct ev as [granted| |fr|emotion confidence t]; cbn [step].
  - unfold startClick. branch; repeat split; assumption.
  - unfold stopClick. branch; repeat split; assumption.
  - unfold detectFaces, getStableEmotion, saveEmotion.
    repeat match goal with
           | |- context [mapEmotion ?ex] =>
               let H := fresh "Hpush" in
               pose proof (Hpush ex) as H; cbn zeta in H;
               destruct (mapEmotion ex) as [emotion confidence];
               cbn [fst] in H; destruct H as (? & ? & ?)
           | _ => branch
           end; unfold consistent;
      cbn [fst currentEmotion emotionHistory noFaceDetectionCount] in *;
      repeat split; try assumption; try (cbn; lia); try reflexivity;
      try apply Forall_nil; try congruence.
    all: match goal with
         | H : negb (String.eqb _ _) = false |- _ =>
             apply negb_false_iff, String.eqb_eq in H; congruence
         end.
  - unfold saveEmotion. branch; repeat split; assumption.
Qed.

(** X2: in every state reached from the loaded page by any sequence of
    start and stop clicks, frames and [saveEmotion] calls, the current
    emotion is the majority label of the history as the filter computes
    it; it is "No face detected" exactly when the history is empty; the
    history holds at most five labels, all of them the recognizer's; and
    the absence counter is not negative. *)
Theorem reachable_states_are_consistent evs pageText :
  let st := fst (run evs (initial pageText)) in
  currentEmotion st = mostFrequent NO_FACE (emotionHistory st)
  /\ (currentEmotion st = NO_FACE <-> emotionHistory st = [])
  /\ (List.length (emotionHistory st) <= 5)%nat
  /\ Forall isEmotionLabel (emotionHistory st)
  /\ 0 <= noFaceDetectionCount st.
Proof.
  assert (Hrun : forall evs st, consistent st -> consistent (fst (run evs st))).
  { clear. induction evs as [|ev evs IH]; intros st Hst; cbn [run].
    - assumption.
    - pose proof (step_consistent ev st Hst) as Hstep.
      destruct (step ev st) as [st1 out1]. cbn [fst] in Hstep.
      specialize (IH st1 Hstep). destruct (run evs st1). assumption. }
  cbn zeta.
  destruct (Hrun evs (initial pageText)) as (Hcur & Hlen & Hlab & Hcount).
  { repeat split; cbn; try lia. constructor. }
  repeat split; try assumption.
  - intros Hno. destruct (emotionHistory (fst (run evs (initial pageText))))
      as [|a h] eqn:Hh; [reflexivity|]. exfalso.
    apply NO_FACE_not_label. rewrite <- Hno, Hcur.
    assert (Hin : In (mostFrequent NO_FACE (a :: h)) (a :: h))
      by (apply mostFrequent_In; discriminate).
    revert Hin. apply Forall_forall. assumption.
  - intros Hnil. rewrite Hcur, Hnil. reflexivity.
Qed.

End Invariant.

(** ** What is persisted *)

Section PostFacts.
Local Open Scope Z_scope.

Ltac branch :=
  match goal with
  | |- context [if ?c then _ else _] => destruct c eqn:?
  | |- context [match ?x with _ => _ end] => destruct x eqn:?
  end.

(** What a POST issued by a frame tells about the frame. *)
Lemma detectFaces_post fr st e c t :
  In (Post e c t) (snd (detectFaces fr st)) ->
  let st' := fst (detectFaces fr st) in
  isStreaming st = true
  /\ e <> currentEmotion st
  /\ e <> NO_FACE
  /\ currentEmotion st' = e
  /\ In e (emotionHistory st')
  /\ emotionDisplay st' = e
  /\ In (UpdateDisplay e) (snd (detectFaces fr st))
  /\ t = saveNow fr
  /\ emotionSaveInterval < t - lastEmotionSaveTime st
  /\ lastEmotionSaveTime st' = t
  /\ exists ex rest,
       detections fr = {| expressions := Some ex |} :: rest
       /\ c = snd (mapEmotion ex)
       /\ (0.2 <? c)%float = true.
Proof.
  assert (Hstable : forall x h, In (mostFrequent x (remember x h)) (remember x h))
    by (intros x h; apply mostFrequent_In, remember_nonempty).
  unfold detectFaces, getStableEmotion, saveEmotion.
  repeat branch; cbn [fst snd]; intros Hin; cbn in Hin;
    repeat (destruct Hin as [Hin|Hin]; try discriminate);
    try (exfalso; exact Hin).
  all: injection Hin as <- <- <-.
  all: match goal with H : negb (isStreaming _) = false |- _ =>
         apply negb_false_iff in H end.
  all: match goal with H : negb (String.eqb _ (currentEmotion _)) = true |- _ =>
         apply negb_true_iff, String.eqb_neq in H; cbn in H end.
  all: match goal with H : _ && _ = true |- _ =>
         apply andb_true_iff in H; destruct H as [Hne Hgap];
         apply negb_true_iff, String.eqb_neq in Hne;
         apply Z.ltb_lt in Hgap; cbn in Hgap end.
  all: cbn; repeat split; try assumption; try (now right; left);
    try apply Hstable.
  all: match goal with
       | Hd : detections _ = ?d :: ?rest, He : expressions ?d = Some ?ex,
         Hm : mapEmotion ?ex = (_, ?c) |- _ =>
           exists ex, rest; destruct d as [exd]; cbn in He; subst exd;
           rewrite Hm; repeat split; assumption
       end.
Qed.

(** X3: a frame issues a POST only when it changes the current emotion:
    the request carries the new current emotion, which is not "No face
    detected" and is in the history, with the confidence of the frame's
    first face (above 0.2) and the clock reading of [saveEmotion], more
    than 2000 ms after the previous request; the display shows the same
    label. *)
Theorem frame_posts_only_a_change fr st e c t :
  In (Post e c t) (snd (detectFaces fr st)) ->
  let st' := fst (detectFaces fr st) in
  isStreaming st = true
  /\ e <> currentEmotion st
  /\ e <> NO_FACE
  /\ currentEmotion st' = e
  /\ In e (emotionHistory st')
  /\ emotionDisplay st' = e
  /\ In (UpdateDisplay e) (snd (detectFaces fr st))
  /\ t = saveNow fr
  /\ emotionSaveInterval < t - lastEmotionSaveTime st
  /\ lastEmotionSaveTime st' = t
  /\ exists ex rest,
       detections fr = {| expressions := Some ex |} :: rest
       /\ c = snd (mapEmotion ex)
       /\ (0.2 <? c)%float = true.
Proof. apply detectFaces_post. Qed.

Lemma frame_posts_only_a_change_witness :
  let fr := frameAt 1700000000000 [happyFace] in
  let st := fst (startClick true (initial "")) in
  isStreaming st = true
  /\ "Happy" <> currentEmotion st
  /\ "Happy" <> NO_FACE
  /\ currentEmotion (fst (detectFaces fr st)) = "Happy"
  /\ In "Happy" (emotionHistory (fst (detectFaces fr st)))
  /\ emotionDisplay (fst (detectFaces fr st)) = "Happy"
  /\ In (UpdateDisplay "Happy") (snd (detectFaces fr st))
  /\ 1700000000040 = saveNow fr
  /\ emotionSaveInterval < 1700000000040 - lastEmotionSaveTime st
  /\ lastEmotionSaveTime (fst (detectFaces fr st)) = 1700000000040
  /\ exists ex rest,
       detections fr = {| expressions := Some ex |} :: rest
       /\ 0.9%float = snd (mapEmotion ex)
       /\ (0.2 <? 0.9)%float = true.
Proof.
  apply (frame_posts_only_a_change
           (frameAt 1700000000000 [happyFace])
           (fst (startClick true (initial "")))
           "Happy" 0.9%float 1700000000040).
  vm_compute. right. right. left. reflexivity.
Defined.

(** X16: in an execution of clicks and frames from the loaded page every
    POST carries one of the recognizer's seven labels and a confidence
    above 0.2. *)
Theorem persisted_samples_are_confident_labels evs pageText e c t :
  Forall handlerEvent evs ->
  In (Post e c t) (snd (run evs (initial pageText))) ->
  isEmotionLabel e /\ (0.2 <? c)%float = true.
Proof.
  assert (Hgen : forall evs st,
             Forall isEmotionLabel (emotionHistory st) ->
             Forall handlerEvent evs ->
             In (Post e c t) (snd (run evs st)) ->
             isEmotionLabel e /\ (0.2 <? c)%float = true).
  { clear evs. induction evs as [|ev evs IH]; intros st Hlab Hevs Hin.
    - destruct Hin.
    - inversion Hevs as [|? ? Hev Hrest]; subst.
      pose proof (step_history_labels ev st Hlab) as Hlab1.
      cbn [run] in Hin.
      destruct (step ev st) as [st1 out1] eqn:Hstep. cbn [fst] in Hlab1.
      specialize (IH st1 Hlab1 Hrest).
      destruct (run evs st1) as [st2 out2]. cbn [snd] in *.
      apply in_app_or in Hin. destruct Hin as [Hin|Hin]; [|auto].
      destruct ev as [granted| |fr|emotion confidence t0]; cbn [step] in Hstep.
      + unfold startClick in Hstep.
        destruct (negb (isStreaming st) && granted);
          injection Hstep as <- <-; destruct Hin.
      + unfold stopClick in Hstep.
        destruct (isStreaming st); [destruct (stream st)|];
          injection Hstep as <- <-; cbn in Hin;
          repeat (destruct Hin as [Hin|Hin]; try discriminate); destruct Hin.
      + pose proof (detectFaces_post fr st e c t) as Hpost.
        rewrite Hstep in Hpost. cbn [fst snd] in Hpost.
        destruct (Hpost Hin)
          as (_ & _ & _ & _ & Hhist & _ & _ & _ & _ & _ & ex & rest & _ & Hc & Hconf).
        split; [|assumption]. revert Hhist. now apply Forall_forall.
      + destruct Hev. }
  intros Hevs Hin. apply (Hgen evs (initial pageText)); try assumption.
  constructor.
Qed.

Lemma persisted_samples_are_confident_labels_witness :
  isEmotionLabel "Happy" /\ (0.2 <? 0.9)%float = true.
Proof.
  apply (persisted_samples_are_confident_labels
           [StartClick true; Tick (frameAt 1700000000000 [happyFace])]
           "" "Happy" 0.9%float 1700000000040).
  - repeat constructor.
  - vm_compute. right. right. left. reflexivity.
Defined.

End PostFacts.

(** ** The dominant emotion of the statistics *)

Section DashboardFacts.

Lemma emotionCounts_tally records :
  emotionCounts records
  = tallyOf (map emotion records) (firstSeen (map emotion records)).
Proof.
  rewrite <- countOccurrences_tally. unfold emotionCounts, countOccurrences.
  generalize (@nil (label * nat)).
  induction records as [|r records IH]; intros acc; cbn; [reflexivity|apply IH].
Qed.

Lemma lookup_tallyOf h keys k :
  In k keys -> lookup k (tallyOf h keys) = Some (occurrences h k).
Proof.
  induction keys as [|a keys IH]; intros Hin; [destruct Hin|].
  cbn. destruct (String.eqb_spec a k) as [->|Hne]; [reflexivity|].
  apply IH. destruct Hin; [congruence|assumption].
Qed.

Lemma moreFrequent_tally h keys a b :
  In a keys -> In b keys ->
  moreFrequent (tallyOf h keys) a b
  = if (occurrences h b <? occurrences h a)%nat then a else b.
Proof.
  intros Ha Hb. unfold moreFrequent.
  now rewrite (lookup_tallyOf h keys a Ha), (lookup_tallyOf h keys b Hb).
Qed.

(** The scan of [reduce]: the winner is the last key that carries the
    largest count. *)
Lemma scan_last_max h keys :
  forall L a,
    incl L keys -> In a keys ->
    let r := fold_left (moreFrequent (tallyOf h keys)) L a in
    In r keys
    /\ (occurrences h a <= occurrences h r)%nat
    /\ (forall k, In k L -> (occurrences h k <= occurrences h r)%nat)
    /\ ((r = a /\ forall k, In k L -> (occurrences h k < occurrences h a)%nat)
        \/ (exists L1 L2, L = L1 ++ r :: L2
              /\ forall k, In k L2 -> (occurrences h k < occurrences h r)%nat)).
Proof.
  induction L as [|b L IH]; intros a Hincl Ha.
  - cbn. split; [assumption|]. split; [lia|]. split; [intros k []|].
    left. split; [reflexivity|]. intros k Hk. destruct Hk.
  - assert (Hb : In b keys) by (apply Hincl; now left).
    assert (HL : incl L keys) by (intros x Hx; apply Hincl; now right).
    cbn [fold_left]. rewrite (moreFrequent_tally h keys a b Ha Hb).
    destruct (Nat.ltb_spec (occurrences h b) (occurrences h a)) as [Hlt|Hge].
    + cbv iota. destruct (IH a HL Ha) as (Hr & Har & Hall & Hwho). cbn zeta in *.
      split; [assumption|]. split; [assumption|]. split.
      * intros k [<-|Hk]; [lia | auto].
      * destruct Hwho as [[Heq Hlow] | (L1 & L2 & HLeq & Hlow)].
        -- left. split; [assumption|]. intros k [<-|Hk]; [assumption|auto].
        -- right. exists (b :: L1), L2. split; [|assumption].
           cbn [app]. f_equal. exact HLeq.
    + cbv iota. destruct (IH b HL Hb) as (Hr & Hbr & Hall & Hwho). cbn zeta in *.
      split; [assumption|]. split; [lia|]. split.
      * intros k [<-|Hk]; [assumption | auto].
      * right. destruct Hwho as [[Heq Hlow] | (L1 & L2 & HLeq & Hlow)].
        -- exists [], L. rewrite Heq. split; [reflexivity|assumption].
        -- exists (b :: L1), L2. split; [|assumption].
           cbn [app]. f_equal. exact HLeq.
Qed.

(** A key of the tally sits after exactly the labels that occur before
    its first occurrence. *)
Lemma firstSeen_split_iff h :
  forall K1 k K2,
    firstSeen h = K1 ++ k :: K2 ->
    exists pre post,
      h = pre ++ k :: post /\ ~ In k pre /\ forall x, In x pre <-> In x K1.
Proof.
  induction h as [|e h IH] using rev_ind; intros K1 k K2 Heq.
  - destruct K1; discriminate.
  - rewrite firstSeen_snoc in Heq. unfold addKey in Heq.
    destruct (existsb (String.eqb e) (firstSeen h)) eqn:Hex.
    + destruct (IH _ _ _ Heq) as (pre & post & -> & Hnot & Hpre).
      exists pre, (post ++ [e]). rewrite <- app_assoc.
      split; [reflexivity|]. split; assumption.
    + destruct K2 as [|z K2' _] using rev_ind.
      * apply app_inj_tail in Heq. destruct Heq as [HK ->].
        exists h, []. split; [reflexivity|]. split.
        -- intros Hin. apply In_firstSeen in Hin.
           apply existsb_eqb_In in Hin. congruence.
        -- intros x. rewrite <- HK. symmetry. apply In_firstSeen.
      * change (K1 ++ k :: K2' ++ [z]) with (K1 ++ (k :: K2') ++ [z]) in Heq.
        rewrite app_assoc in Heq. apply app_inj_tail in Heq.
        destruct Heq as [HK _].
        destruct (IH _ _ _ HK) as (pre & post & -> & Hnot & Hpre).
        exists pre, (post ++ [e]). rewrite <- app_assoc.
        split; [reflexivity|]. split; assumption.
Qed.

(** X5: for a non-empty list of records (of the recognizer's labels) the
    dominant emotion of the statistics is a most frequent label and, among
    the labels tied at the maximum, the one first seen latest in the list:
    every other label with as many records already occurs before its
    first record. *)
Theorem dominant_emotion_is_latest_seen_most_frequent records :
  records <> [] ->
  Forall isEmotionLabel (map emotion records) ->
  let emotions := map emotion records in
  exists d pre post,
    dominantEmotion records = Some d
    /\ (forall x, (occurrences emotions x <= occurrences emotions d)%nat)
    /\ emotions = pre ++ d :: post
    /\ ~ In d pre
    /\ (forall y, In y emotions -> y <> d ->
          occurrences emotions y = occurrences emotions d -> In y pre).
Proof.
  intros Hne _. cbn zeta. set (h := map emotion records).
  unfold dominantEmotion. rewrite emotionCounts_tally. fold h.
  assert (Hkeys : map fst (tallyOf h (firstSeen h)) = firstSeen h).
  { unfold tallyOf. rewrite map_map. cbn. apply map_id. }
  rewrite Hkeys.
  destruct (firstSeen h) as [|k0 ks] eqn:Hfs.
  - exfalso. destruct records as [|r records]; [congruence|].
    assert (Hin : In (emotion r) (firstSeen h)) by (apply In_firstSeen; now left).
    rewrite Hfs in Hin. destruct Hin.
  - rewrite <- Hfs.
    assert (Hk0 : In k0 (firstSeen h)) by (rewrite Hfs; now left).
    destruct (scan_last_max h (firstSeen h) (firstSeen h) k0
                (incl_refl _) Hk0) as (Hr & _ & Hall & Hwho).
    cbn zeta in *.
    set (d := fold_left (moreFrequent (tallyOf h (firstSeen h))) (firstSeen h) k0) in *.
    destruct Hwho as [[_ Hlow] | (L1 & L2 & HL & Hlow)].
    { specialize (Hlow k0 Hk0). lia. }
    destruct (firstSeen_split_iff h _ _ _ HL) as (pre & post & Hh & Hnot & Hpre).
    exists d, pre, post. repeat split; try assumption.
    + intros x. destruct (in_dec string_dec x h) as [Hin|Hout].
      * apply Hall. now apply In_firstSeen.
      * unfold occurrences at 1.
        rewrite (proj1 (count_occ_not_In _ _ _) Hout). lia.
    + intros y Hy Hyd Htie. apply Hpre.
      apply In_firstSeen in Hy. rewrite HL in Hy.
      apply in_app_or in Hy. destruct Hy as [Hy|[Hy|Hy]]; [assumption|congruence|].
      specialize (Hlow y Hy). lia.
Qed.

Lemma dominant_emotion_is_latest_seen_most_frequent_witness :
  let records :=
    [{| emotion := "Happy"; confidence := 0.9%float; source := "face" |};
     {| emotion := "Sad"; confidence := 0.5%float; source := "face" |};
     {| emotion := "Sad"; confidence := 0.6%float; source := "face" |};
     {| emotion := "Happy"; confidence := 0.7%float; source := "face" |}] in
  exists d pre post,
    dominantEmotion records = Some d
    /\ (forall x, (occurrences (map emotion records) x
                   <= occurrences (map emotion records) d)%nat)
    /\ map emotion records = pre ++ d :: post
    /\ ~ In d pre
    /\ (forall y, In y (map emotion records) -> y <> d ->
          occurrences (map emotion records) y
          = occurrences (map emotion records) d -> In y pre).
Proof.
  cbv zeta. apply dominant_emotion_is_latest_seen_most_frequent.
  - discriminate.
  - cbn. repeat (apply Forall_cons; [emotion_label|]). apply Forall_nil.
Defined.

(** Where the stability filter returns "Happy", the statistics name
    "Sad". *)
Example dominant_emotion_of_a_tie :
  dominantEmotion
    [{| emotion := "Happy"; confidence := 0.9%float; source := "face" |};
     {| emotion := "Sad"; confidence := 0.5%float; source := "face" |};
     {| emotion := "Sad"; confidence := 0.6%float; source := "face" |};
     {| emotion := "Happy"; confidence := 0.7%float; source := "face" |}]
  = Some "Sad".
Proof. reflexivity. Qed.

End DashboardFacts.

(** ** Short dropouts of the recognizer *)

Section DropoutFacts.
Local Open Scope Z_scope.

Ltac branch :=
  match goal with
  | |- context [if ?c then _ else _] => destruct c eqn:?
  | |- context [match ?x with _ => _ end] => destruct x eqn:?
  end.

Lemma stable_is_label e h :
  isEmotionLabel e -> Forall isEmotionLabel h ->
  isEmotionLabel (mostFrequent e (remember e h))
  /\ Forall isEmotionLabel (remember e h).
Proof.
  intros He Hh.
  assert (Hall : Forall isEmotionLabel (remember e h)).
  { apply Forall_forall. intros x Hx. apply remember_incl in Hx.
    destruct Hx as [->|Hx]; [assumption|].
    revert x Hx. now apply Forall_forall. }
  split; [|assumption].
  assert (Hin : In (mostFrequent e (remember e h)) (remember e h))
    by apply mostFrequent_In, remember_nonempty.
  revert Hin. now apply Forall_forall.
Qed.

Lemma sampled_frame_keeps_display fr st :
  isStreaming st = true ->
  detectionInterval <= now fr - lastDetectionTime st ->
  videoReady fr = true ->
  Forall isEmotionLabel (emotionHistory st) ->
  currentEmotion st <> NO_FACE ->
  (detections fr = [] -> noFaceDetectionCount st + 1 <= 5) ->
  let st' := fst (detectFaces fr st) in
  isStreaming st' = true
  /\ lastDetectionTime st' = now fr
  /\ Forall isEmotionLabel (emotionHistory st')
  /\ currentEmotion st' <> NO_FACE
  /\ noFaceDetectionCount st'
     = match detections fr with
       | [] => noFaceDetectionCount st + 1
       | _ :: _ => 0
       end
  /\ (emotionHistory st <> [] -> emotionHistory st' <> [])
  /\ ~ In (UpdateDisplay NO_FACE) (snd (detectFaces fr st)).
Proof.
  intros Hstream Hgate Hready Hlab Hcur Hgap.
  assert (Hpush : forall ex,
             isEmotionLabel (mostFrequent (fst (mapEmotion ex))
                               (remember (fst (mapEmotion ex)) (emotionHistory st)))
             /\ Forall isEmotionLabel
                  (remember (fst (mapEmotion ex)) (emotionHistory st))).
  { intros ex. apply stable_is_label; [apply mapEmotion_label | assumption]. }
  unfold detectFaces, getStableEmotion, saveEmotion.
  rewrite Hstream, Hready. cbn [negb].
  destruct (Z.ltb_spec (now fr - lastDetectionTime st) detectionInterval); [lia|].
  destruct (detections fr) as [|detection others] eqn:Hdet.
  - specialize (Hgap eq_refl). cbn [noFaceDetectionCount currentEmotion].
    destruct (Z.ltb_spec 5 (noFaceDetectionCount st + 1)); [lia|].
    cbn; repeat split; try assumption;
      intros H'; repeat (destruct H' as [H'|H']; try discriminate); exact H'.
  - repeat match goal with
           | |- context [mapEmotion ?ex] =>
               let H := fresh "Hpush" in
               pose proof (Hpush ex) as H;
               destruct (mapEmotion ex) as [emotion confidence];
               cbn [fst] in H; destruct H as [? ?]
           | _ => branch
           end; cbn; repeat split; try assumption; try (intros Hsame; exact Hsame);
      try (intros _; apply remember_nonempty);
      try (intros Hno; apply NO_FACE_not_label; rewrite <- Hno; assumption);
      try (intros H'; repeat (destruct H' as [H'|H']; try discriminate);
           try (exfalso; exact H');
           injection H' as H'; apply NO_FACE_not_label; rewrite <- H'; assumption).
Qed.

(** X6: while no stretch of sampled frames without a detection takes the
    absence counter beyond five, the display is never reset: the current
    emotion stays other than "No face detected", a non-empty history stays
    non-empty, and "No face detected" is never displayed. *)
Theorem short_dropouts_never_blank_the_display frames :
  forall st,
    isStreaming st = true ->
    sampled (lastDetectionTime st) frames ->
    Forall isEmotionLabel (emotionHistory st) ->
    currentEmotion st <> NO_FACE ->
    shortGaps (noFaceDetectionCount st) frames = true ->
    currentEmotion (ticks frames st) <> NO_FACE
    /\ (emotionHistory st <> [] -> emotionHistory (ticks frames st) <> [])
    /\ ~ In (UpdateDisplay NO_FACE) (snd (run (map Tick frames) st)).
Proof.
  induction frames as [|fr frames IH];
    intros st Hstream Hsampled Hlab Hcur Hgaps.
  - cbn. repeat split; auto.
  - destruct Hsampled as (Hgate & Hready & Hrest).
    cbn [shortGaps] in Hgaps.
    assert (Hgap : detections fr = [] -> noFaceDetectionCount st + 1 <= 5).
    { intros Hnone. rewrite Hnone in Hgaps.
      apply andb_true_iff in Hgaps. destruct Hgaps as [Hle _].
      now apply Z.leb_le in Hle. }
    destruct (sampled_frame_keeps_display fr st Hstream Hgate Hready Hlab Hcur Hgap)
      as (Hs1 & Hlast1 & Hlab1 & Hcur1 & Hcount1 & Hhist1 & Hout1).
    rewrite ticks_cons. cbn [map run step].
    destruct (detectFaces fr st) as [st1 out1]. cbn [fst snd] in *.
    assert (Hgaps1 : shortGaps (noFaceDetectionCount st1) frames = true).
    { rewrite Hcount1. destruct (detections fr); [|assumption].
      apply andb_true_iff in Hgaps. tauto. }
    rewrite <- Hlast1 in Hrest.
    destruct (IH st1 Hs1 Hrest Hlab1 Hcur1 Hgaps1) as (Hc & Hh & Ho).
    unfold ticks in *. destruct (run (map Tick frames) st1) as [st2 out2].
    cbn [fst snd] in *. repeat split; auto.
    intros Hin. apply in_app_or in Hin. tauto.
Qed.

(** Five empty frames, a face, five empty frames. *)
Lemma short_dropouts_never_blank_the_display_witness :
  let frames :=
    map (fun k => frameAt (1700000000000 + 500 * k)
                          (if (k =? 6)%Z then [happyFace] else []))
        [1; 2; 3; 4; 5; 6; 7; 8; 9; 10; 11]%Z in
  currentEmotion (ticks frames watching) <> NO_FACE
  /\ (emotionHistory watching <> [] -> emotionHistory (ticks frames watching) <> [])
  /\ ~ In (UpdateDisplay NO_FACE) (snd (run (map Tick frames) watching)).
Proof.
  cbv zeta. apply short_dropouts_never_blank_the_display.
  - reflexivity.
  - vm_compute. repeat split; discriminate.
  - vm_compute. repeat (apply Forall_cons; [emotion_label|]). apply Forall_nil.
  - vm_compute. discriminate.
  - vm_compute. reflexivity.
Defined.

End DropoutFacts.

(** ** Zeros and NaN in the arithmetic of [calculateAudioFeatures] *)

Section ZeroFacts.
Local Open Scope float_scope.

Lemma zeroOrNaN_add a b : zeroOrNaN a -> zeroOrNaN b -> zeroOrNaN (a + b).
Proof.
  unfold zeroOrNaN. rewrite add_spec.
  destruct (Prim2SF a) as [sa|sa| |sa ma ea], (Prim2SF b) as [sb|sb| |sb mb eb];
    cbn; try tauto.
  destruct sa, sb; exact (fun _ _ => I).
Qed.

Lemma zeroOrNaN_mul a c : zeroOrNaN a -> finiteNonzero c -> zeroOrNaN (a * c).
Proof.
  unfold zeroOrNaN, finiteNonzero. rewrite mul_spec.
  destruct (Prim2SF a) as [sa|sa| |sa ma ea], (Prim2SF c) as [sc|sc| |sc mc ec];
    cbn; tauto.
Qed.

Lemma zeroOrNaN_mul_zero x : zeroOrNaN (x * 0).
Proof.
  unfold zeroOrNaN. rewrite mul_spec.
  change (Prim2SF 0) with (S754_zero false).
  destruct (Prim2SF x) as [sa|sa| |sa ma ea]; cbn; exact I.
Qed.

Lemma zeroOrNaN_div_finite a c : zeroOrNaN a -> finiteNonzero c -> zeroOrNaN (a / c).
Proof.
  unfold zeroOrNaN, finiteNonzero. rewrite div_spec.
  destruct (Prim2SF a) as [sa|sa| |sa ma ea], (Prim2SF c) as [sc|sc| |sc mc ec];
    cbn; tauto.
Qed.

Lemma zero_div_any d : zeroOrNaN (0 / d).
Proof.
  unfold zeroOrNaN. rewrite div_spec.
  change (Prim2SF 0) with (S754_zero false).
  destruct (Prim2SF d) as [sc|sc| |sc mc ec]; cbn; exact I.
Qed.

Lemma div_zeroOrNaN_is_nan a b : zeroOrNaN a -> zeroOrNaN b -> is_nan (a / b) = true.
Proof.
  unfold zeroOrNaN. rewrite is_nan_Prim2SF, div_spec.
  destruct (Prim2SF a) as [sa|sa| |sa ma ea], (Prim2SF b) as [sb|sb| |sb mb eb];
    cbn; tauto.
Qed.

Lemma is_nan_sqrt x : is_nan x = true -> is_nan (sqrt x) = true.
Proof.
  rewrite !is_nan_Prim2SF, sqrt_spec.
  destruct (Prim2SF x) as [sa|sa| |sa ma ea]; try discriminate. reflexivity.
Qed.

Lemma is_nan_sub_r a b : is_nan b = true -> is_nan (a - b) = true.
Proof.
  rewrite !is_nan_Prim2SF, sub_spec.
  destruct (Prim2SF b) as [sb|sb| |sb mb eb]; try discriminate.
  destruct (Prim2SF a) as [sa|sa| |sa ma ea]; reflexivity.
Qed.

End ZeroFacts.

(** ** Silence *)

Section SilenceFacts.
Local Open Scope float_scope.

Lemma allZero_firstn n l : allZero l -> allZero (firstn n l).
Proof.
  unfold allZero. revert l. induction n as [|n IH]; intros [|a l] H; cbn;
    try constructor; inversion H; subst; auto.
Qed.

Lemma allZero_skipn n l : allZero l -> allZero (skipn n l).
Proof.
  unfold allZero. revert l. induction n as [|n IH]; intros [|a l] H; cbn;
    try assumption; inversion H; subst; auto.
Qed.

Lemma allZero_slice l lo hi : allZero l -> allZero (JS.slice l lo hi).
Proof. intros H. unfold JS.slice. now apply allZero_firstn, allZero_skipn. Qed.

(** The weighted sum of an all-zero band is 0. *)
Lemma zero_band_sum (w : float) band :
  (0 + JS.of_Z 0 * w = 0) -> allZero band ->
  forall i, JS.reduce_from (fun sum val (_ : Z) => sum + (JS.of_Z val * w)) i band 0 = 0.
Proof.
  intros Hw Hband. induction Hband as [|v band Hv _ IH]; intros i; cbn.
  - reflexivity.
  - subst v. rewrite Hw. apply IH.
Qed.

Lemma zero_bandEnergy w band len :
  (0 + JS.of_Z 0 * w = 0) -> allZero band -> zeroOrNaN (bandEnergy band w len).
Proof.
  intros Hw Hband. unfold bandEnergy, JS.reduce.
  rewrite (zero_band_sum w band Hw Hband). apply zero_div_any.
Qed.

Lemma zero_totalWeight d :
  allZero d ->
  forall i c,
    snd (JS.reduce_from
           (fun '(c, w) val i => (c + JS.of_Z i * JS.of_Z val, w + JS.of_Z val))
           i d (c, 0)) = 0.
Proof.
  intros Hd. induction Hd as [|v d Hv _ IH]; intros i c; cbn.
  - reflexivity.
  - subst v. change (0 + JS.of_Z 0) with 0. apply IH.
Qed.

Lemma zero_variance_sum d (position : Z -> float) :
  allZero d ->
  forall i acc,
    zeroOrNaN acc ->
    zeroOrNaN (JS.reduce_from
                 (fun sum val i => let diff := position i in
                                   sum + (diff * diff * JS.of_Z val))
                 i d acc).
Proof.
  intros Hd. induction Hd as [|v d Hv _ IH]; intros i acc Hacc; cbn.
  - assumption.
  - subst v. apply IH. apply zeroOrNaN_add; [assumption|].
    change (JS.of_Z 0) with 0. apply zeroOrNaN_mul_zero.
Qed.

Lemma zeroOrNaN_zero : zeroOrNaN 0.
Proof. exact I. Qed.

Lemma silent_totalWeight d : allZero d -> snd (centroidLoop d) = 0.
Proof. intros Hd. unfold centroidLoop, JS.reduce. now apply zero_totalWeight. Qed.

Lemma silent_centroid d : allZero d -> centroidOf d = 0.
Proof.
  intros Hd. unfold centroidOf.
  pose proof (silent_totalWeight d Hd) as Hw.
  destruct (centroidLoop d) as [centroidSum totalWeight]. cbn [snd] in Hw.
  subst totalWeight. reflexivity.
Qed.

Lemma silent_spread d : allZero d -> is_nan (spreadOf d) = true.
Proof.
  intros Hd. unfold spreadOf. apply is_nan_sqrt.
  rewrite (silent_totalWeight d Hd), (silent_centroid d Hd).
  apply div_zeroOrNaN_is_nan; [|exact zeroOrNaN_zero].
  unfold JS.reduce.
  apply (zero_variance_sum d
           (fun i => JS.of_Z i / JS.of_Z (Z.of_nat (List.length d)) - 0) Hd).
  exact zeroOrNaN_zero.
Qed.

(** X11: on an all-zero snapshot of any length the call returns NaN for
    [pitch], [speechRate], [spectralSpread] and [consistency], and 0 for
    [spectralCentroid]. *)
Theorem every_silent_snapshot_yields_nan frequencyData :
  allZero frequencyData ->
  let r := calculateAudioFeatures frequencyData in
  is_nan (pitch r) = true
  /\ is_nan (speechRate r) = true
  /\ is_nan (spectralSpread r) = true
  /\ is_nan (consistency r) = true
  /\ spectralCentroid r = 0.
Proof.
  intros Hd. cbv zeta. unfold calculateAudioFeatures.
  cbn [pitch speechRate spectralSpread consistency spectralCentroid].
  assert (Hband : forall w lo hi len,
             (0 + JS.of_Z 0 * w = 0) ->
             zeroOrNaN (bandEnergy (JS.slice frequencyData lo hi) w len)).
  { intros w lo hi len Hw. apply zero_bandEnergy; [assumption|].
    now apply allZero_slice. }
  assert (H15 : finiteNonzero 1.5) by exact I.
  repeat split.
  - apply clamp01_nan, div_zeroOrNaN_is_nan.
    + apply zeroOrNaN_add; [apply zeroOrNaN_mul; [|exact H15]|];
        apply Hband; reflexivity.
    + apply zeroOrNaN_add; apply Hband; reflexivity.
  - apply clamp01_nan, div_zeroOrNaN_is_nan;
      apply zeroOrNaN_add; apply Hband; reflexivity.
  - apply clamp01_nan, silent_spread, Hd.
  - apply is_nan_sub_r, silent_spread, Hd.
  - rewrite (silent_centroid _ Hd). reflexivity.
Qed.

Lemma every_silent_snapshot_yields_nan_witness :
  is_nan (pitch (calculateAudioFeatures (repeat 0%Z 32))) = true
  /\ is_nan (speechRate (calculateAudioFeatures (repeat 0%Z 32))) = true
  /\ is_nan (spectralSpread (calculateAudioFeatures (repeat 0%Z 32))) = true
  /\ is_nan (consistency (calculateAudioFeatures (repeat 0%Z 32))) = true
  /\ spectralCentroid (calculateAudioFeatures (repeat 0%Z 32)) = 0.
Proof.
  apply (every_silent_snapshot_yields_nan (repeat 0%Z 32)).
  unfold allZero. cbn. repeat constructor.
Defined.

End SilenceFacts.

(** ** The five bands *)

Section BandFacts.

Lemma tenthsFrom_spec count :
  forall n k,
    tenthsFrom count n = true ->
    (n <= k < n + Z.of_nat count)%Z -> tenths k = true.
Proof.
  induction count as [|count IH]; intros n k Hall Hk; [lia|].
  cbn [tenthsFrom] in Hall. apply andb_true_iff in Hall.
  destruct Hall as [Hn Hrest].
  destruct (Z.eq_dec k n) as [->|Hne]; [exact Hn|].
  apply (IH (n + 1)%Z k Hrest). lia.
Qed.

Lemma tenths_upto_maxBins : tenthsFrom (S maxBins) 0 = true.
Proof. vm_compute. reflexivity. Qed.

Lemma bandBounds_tenths n :
  (n <= maxBins)%nat ->
  bandBounds (Z.of_nat n)
  = (Z.of_nat n / 10, 3 * Z.of_nat n / 10, 6 * Z.of_nat n / 10,
     8 * Z.of_nat n / 10)%Z.
Proof.
  intros Hn.
  assert (Hcheck : tenths (Z.of_nat n) = true).
  { apply (tenthsFrom_spec _ _ _ tenths_upto_maxBins). lia. }
  unfold tenths in Hcheck.
  destruct (bandBounds (Z.of_nat n)) as [[[b1 b2] b3] b4].
  apply andb_true_iff in Hcheck. destruct Hcheck as [Hcheck H4].
  apply andb_true_iff in Hcheck. destruct Hcheck as [Hcheck H3].
  apply andb_true_iff in Hcheck. destruct Hcheck as [H1 H2].
  apply Z.eqb_eq in H1, H2, H3, H4. now subst.
Qed.

Lemma firstn_add {A} n m (l : list A) :
  firstn (n + m) l = firstn n l ++ firstn m (skipn n l).
Proof.
  revert l. induction n as [|n IH]; intros [|a l]; cbn; try reflexivity.
  - now rewrite firstn_nil.
  - now rewrite IH.
Qed.

(** Adjacent slices join. *)
Lemma slice_join {A} (l : list A) a b c :
  (0 <= a <= b)%Z -> (b <= c)%Z ->
  JS.slice l a b ++ JS.slice l b c = JS.slice l a c.
Proof.
  intros Hab Hbc. unfold JS.slice.
  replace (Z.to_nat (c - a)) with (Z.to_nat (b - a) + Z.to_nat (c - b))%nat by lia.
  rewrite firstn_add, skipn_skipn.
  replace (Z.to_nat (b - a) + Z.to_nat a)%nat with (Z.to_nat b) by lia.
  reflexivity.
Qed.

Lemma slice_all {A} (l : list A) :
  JS.slice l 0 (Z.of_nat (List.length l)) = l.
Proof.
  unfold JS.slice. cbn [Z.to_nat skipn]. rewrite Z.sub_0_r, Nat2Z.id.
  apply firstn_all.
Qed.

Lemma length_slice {A} (l : list A) a b :
  (0 <= a <= b)%Z -> (b <= Z.of_nat (List.length l))%Z ->
  Z.of_nat (List.length (JS.slice l a b)) = (b - a)%Z.
Proof.
  intros Hab Hb. unfold JS.slice. rewrite length_firstn, length_skipn. lia.
Qed.

(** X9: for a snapshot of at most 16384 bins the band boundaries are the
    integer tenths of its length, the five slices are the consecutive
    pieces of the snapshot (they join back to it, in order), each band's
    energy divides by the length of its slice, and from 10 bins on no
    band is empty. *)
Theorem bands_partition_the_snapshot frequencyData :
  (List.length frequencyData <= maxBins)%nat ->
  let n := Z.of_nat (List.length frequencyData) in
  let r := calculateAudioFeatures frequencyData in
  let bass := JS.slice frequencyData 0 (n / 10) in
  let lowMid := JS.slice frequencyData (n / 10) (3 * n / 10) in
  let mid := JS.slice frequencyData (3 * n / 10) (6 * n / 10) in
  let presence := JS.slice frequencyData (6 * n / 10) (8 * n / 10) in
  let brilliance := JS.slice frequencyData (8 * n / 10) n in
  bass ++ lowMid ++ mid ++ presence ++ brilliance = frequencyData
  /\ bassEnergy r = bandEnergy bass 1.2 (Z.of_nat (List.length bass))
  /\ lowMidEnergy r = bandEnergy lowMid 1.5 (Z.of_nat (List.length lowMid))
  /\ midEnergy r = bandEnergy mid 2.0 (Z.of_nat (List.length mid))
  /\ presenceEnergy r = bandEnergy presence 1.8 (Z.of_nat (List.length presence))
  /\ brillianceEnergy r
     = bandEnergy brilliance 1.3 (Z.of_nat (List.length brilliance))
  /\ ((10 <= n)%Z ->
      bass <> [] /\ lowMid <> [] /\ mid <> [] /\ presence <> []
      /\ brilliance <> []).
Proof.
  intros Hn. cbv zeta.
  set (n := Z.of_nat (List.length frequencyData)).
  pose proof (bandBounds_tenths _ Hn) as Hb. fold n in Hb.
  unfold bandBounds in Hb. injection Hb as H1 H2 H3 H4.
  assert (Hn0 : (0 <= n)%Z) by (unfold n; lia).
  assert (Hlen : forall a b, (0 <= a <= b)%Z -> (b <= n)%Z ->
                   Z.of_nat (List.length (JS.slice frequencyData a b)) = (b - a)%Z).
  { intros a b Hab Hbn. now apply length_slice. }
  assert (Hq1 : (0 <= n / 10 <= 3 * n / 10)%Z)
    by (split; [apply Z.div_pos; lia | apply Z.div_le_mono; lia]).
  assert (Hq2 : (3 * n / 10 <= 6 * n / 10)%Z) by (apply Z.div_le_mono; lia).
  assert (Hq3 : (6 * n / 10 <= 8 * n / 10)%Z) by (apply Z.div_le_mono; lia).
  assert (Hq4 : (8 * n / 10 <= n)%Z)
    by (apply Z.div_le_upper_bound; lia).
  split; [|split; [|split; [|split; [|split; [|split]]]]].
  - rewrite !slice_join by lia. apply slice_all.
  - rewrite Hlen by lia. unfold calculateAudioFeatures. cbn [bassEnergy].
    fold n. rewrite H1, Z.sub_0_r. reflexivity.
  - rewrite Hlen by lia. unfold calculateAudioFeatures. cbn [lowMidEnergy].
    fold n. rewrite H1, H2. reflexivity.
  - rewrite Hlen by lia. unfold calculateAudioFeatures. cbn [midEnergy].
    fold n. rewrite H2, H3. reflexivity.
  - rewrite Hlen by lia. unfold calculateAudioFeatures. cbn [presenceEnergy].
    fold n. rewrite H3, H4. reflexivity.
  - rewrite Hlen by lia. unfold calculateAudioFeatures. cbn [brillianceEnergy].
    fold n. rewrite H4. reflexivity.
  - intros H10.
    assert (Hne : forall a b, (0 <= a < b)%Z -> (b <= n)%Z ->
                    JS.slice frequencyData a b <> []).
    { intros a b Hab Hbn Hnil. assert (Hl := Hlen a b ltac:(lia) Hbn).
      rewrite Hnil in Hl. cbn in Hl. lia. }
    assert (1 <= n / 10)%Z by (apply Z.div_le_lower_bound; lia).
    assert (n / 10 < 3 * n / 10)%Z.
    { pose proof (Z.div_mod n 10 ltac:(lia)).
      pose proof (Z.div_mod (3 * n) 10 ltac:(lia)).
      pose proof (Z.mod_pos_bound n 10 ltac:(lia)).
      pose proof (Z.mod_pos_bound (3 * n) 10 ltac:(lia)). lia. }
    assert (3 * n / 10 < 6 * n / 10)%Z.
    { pose proof (Z.div_mod (6 * n) 10 ltac:(lia)).
      pose proof (Z.div_mod (3 * n) 10 ltac:(lia)).
      pose proof (Z.mod_pos_bound (6 * n) 10 ltac:(lia)).
      pose proof (Z.mod_pos_bound (3 * n) 10 ltac:(lia)). lia. }
    assert (6 * n / 10 < 8 * n / 10)%Z.
    { pose proof (Z.div_mod (6 * n) 10 ltac:(lia)).
      pose proof (Z.div_mod (8 * n) 10 ltac:(lia)).
      pose proof (Z.mod_pos_bound (6 * n) 10 ltac:(lia)).
      pose proof (Z.mod_pos_bound (8 * n) 10 ltac:(lia)). lia. }
    assert (8 * n / 10 < n)%Z.
    { pose proof (Z.div_mod (8 * n) 10 ltac:(lia)).
      pose proof (Z.mod_pos_bound (8 * n) 10 ltac:(lia)). lia. }
    repeat split; apply Hne; lia.
Qed.

Lemma bands_partition_the_snapshot_witness :
  let frequencyData := [12; 0; 255; 7; 90; 33; 1; 64; 128; 200; 5; 17]%Z in
  JS.slice frequencyData 0 1 ++ JS.slice frequencyData 1 3
  ++ JS.slice frequencyData 3 7 ++ JS.slice frequencyData 7 9
  ++ JS.slice frequencyData 9 12 = frequencyData.
Proof.
  cbv zeta.
  apply (bands_partition_the_snapshot
           [12; 0; 255; 7; 90; 33; 1; 64; 128; 200; 5; 17]%Z).
  apply Nat.leb_le. vm_compute. reflexivity.
Defined.

End BandFacts.

(** ** NaN through the record *)

Section NaNFacts.
Local Open Scope float_scope.

Lemma is_nan_add_l a b : is_nan a = true -> is_nan (a + b) = true.
Proof.
  rewrite !is_nan_Prim2SF, add_spec.
  destruct (Prim2SF a) as [sa|sa| |sa ma ea]; try discriminate. reflexivity.
Qed.

Lemma is_nan_add_r a b : is_nan b = true -> is_nan (a + b) = true.
Proof.
  rewrite !is_nan_Prim2SF, add_spec.
  destruct (Prim2SF b) as [sb|sb| |sb mb eb]; try discriminate.
  destruct (Prim2SF a) as [sa|sa| |sa ma ea]; reflexivity.
Qed.

Lemma is_nan_div_l a b : is_nan a = true -> is_nan (a / b) = true.
Proof.
  rewrite !is_nan_Prim2SF, div_spec.
  destruct (Prim2SF a) as [sa|sa| |sa ma ea]; try discriminate. reflexivity.
Qed.

Lemma is_nan_div_r a b : is_nan b = true -> is_nan (a / b) = true.
Proof.
  rewrite !is_nan_Prim2SF, div_spec.
  destruct (Prim2SF b) as [sb|sb| |sb mb eb]; try discriminate.
  destruct (Prim2SF a) as [sa|sa| |sa ma ea]; reflexivity.
Qed.

Lemma in01_nan x : is_nan x = true -> in01 x = false.
Proof.
  rewrite is_nan_Prim2SF. unfold in01. rewrite !leb_spec. unfold SFleb.
  destruct (Prim2SF x) as [s|s| |s m e]; try discriminate.
  intros _. destruct (SFcompare (Prim2SF 0) S754_nan) as [[]|] eqn:Hc;
    try reflexivity;
    (destruct (Prim2SF 0); discriminate).
Qed.

(** X7: each of the five clamped fields of the returned record lies in
    [0,1] exactly when it is not NaN. *)
Theorem clamped_fields_in_range_unless_nan frequencyData :
  let r := calculateAudioFeatures frequencyData in
  Forall (fun v => in01 v = negb (is_nan v))
         [pitch r; volume r; speechRate r; spectralCentroid r; spectralSpread r].
Proof.
  assert (Hclamp : forall x, in01 (clamp01 x) = negb (is_nan (clamp01 x))).
  { intros x. destruct (is_nan x) eqn:Hx.
    - rewrite (clamp01_nan x Hx). now apply in01_nan, clamp01_nan.
    - rewrite (clamp01_in_unit_interval x Hx).
      destruct (is_nan (clamp01 x)) eqn:Hc; [|reflexivity].
      apply in01_nan in Hc. rewrite (clamp01_in_unit_interval x Hx) in Hc.
      discriminate. }
  cbv zeta. unfold calculateAudioFeatures.
  cbn [pitch volume speechRate spectralCentroid spectralSpread].
  repeat (apply Forall_cons; [apply Hclamp|]). apply Forall_nil.
Qed.

Lemma ten_le_maxBins : (10 <= maxBins)%nat.
Proof. apply Nat.leb_le. vm_compute. reflexivity. Qed.

(** X10: a snapshot with fewer than ten bins has an empty bass band, so
    [bassEnergy] is 0/0 and with it [pitch], [volume] and [speechRate]
    are NaN, whatever the magnitudes. *)
Theorem short_snapshot_yields_nan frequencyData :
  (List.length frequencyData < 10)%nat ->
  let r := calculateAudioFeatures frequencyData in
  is_nan (bassEnergy r) = true
  /\ is_nan (pitch r) = true
  /\ is_nan (volume r) = true
  /\ is_nan (speechRate r) = true.
Proof.
  intros Hn. cbv zeta.
  assert (Hbass : is_nan (bassEnergy (calculateAudioFeatures frequencyData)) = true).
  { unfold calculateAudioFeatures. cbn [bassEnergy].
    assert (Hb := bandBounds_tenths (List.length frequencyData)
                    ltac:(pose proof ten_le_maxBins; lia)).
    unfold bandBounds in Hb. injection Hb as H1 _ _ _. rewrite H1.
    replace (Z.of_nat (List.length frequencyData) / 10)%Z with 0%Z
      by (symmetry; apply Z.div_small; lia).
    reflexivity. }
  split; [exact Hbass|].
  unfold calculateAudioFeatures in *. cbn [bassEnergy pitch volume speechRate] in *.
  repeat split; apply clamp01_nan.
  - apply is_nan_div_r, is_nan_add_l, Hbass.
  - apply is_nan_div_l, is_nan_add_r, Hbass.
  - apply is_nan_div_r, is_nan_add_l, Hbass.
Qed.

Lemma short_snapshot_yields_nan_witness :
  is_nan (bassEnergy (calculateAudioFeatures [200; 17; 255]%Z)) = true
  /\ is_nan (pitch (calculateAudioFeatures [200; 17; 255]%Z)) = true
  /\ is_nan (volume (calculateAudioFeatures [200; 17; 255]%Z)) = true
  /\ is_nan (speechRate (calculateAudioFeatures [200; 17; 255]%Z)) = true.
Proof.
  apply (short_snapshot_yields_nan [200; 17; 255]%Z). cbn. lia.
Defined.

End NaNFacts.

(** ** The mood read from a chat message *)

Section TextChatFacts.

Import TextChat.
Local Open Scope list_scope.
Local Open Scope string_scope.

Lemma append_nil_r s : s ++ "" = s.
Proof. induction s as [|c s IH]; cbn; [reflexivity | now rewrite IH]. Qed.

Lemma append_assoc a b c : (a ++ b) ++ c = a ++ (b ++ c).
Proof. induction a as [|x a IH]; cbn; [reflexivity | now rewrite IH]. Qed.

Lemma prefix_spec w t :
  String.prefix w t = true <-> exists post, t = w ++ post.
Proof.
  revert t. induction w as [|c w IH]; intros t.
  - split; [intros _; now exists t | intros _; destruct t; reflexivity].
  - destruct t as [|d t].
    + split; [discriminate | intros [post H]; discriminate].
    + change (String.prefix (String c w) (String d t))
        with (if Ascii.ascii_dec c d then String.prefix w t else false).
      destruct (Ascii.ascii_dec c d) as [->|Hne].
      * rewrite IH. split; intros [post H]; exists post.
        -- cbn. now rewrite H.
        -- cbn in H. now injection H.
      * split; [discriminate|]. intros [post H]. cbn in H.
        injection H as H1 H2. congruence.
Qed.

Lemma includes_eq t w :
  includes t w
  = if String.prefix w t then true
    else match t with
         | EmptyString => false
         | String _ rest => includes rest w
         end.
Proof. destruct t; reflexivity. Qed.

Lemma includes_spec t w :
  includes t w = true <-> exists pre post, t = pre ++ w ++ post.
Proof.
  induction t as [|c t IH]; rewrite includes_eq.
  - destruct (String.prefix w "") eqn:Hp.
    + apply prefix_spec in Hp. destruct Hp as [post Hp].
      split; [intros _; now exists "", post | reflexivity].
    + split; [discriminate|]. intros (pre & post & H).
      destruct pre; [|discriminate]. cbn in H.
      assert (String.prefix w "" = true) by (apply prefix_spec; now exists post).
      congruence.
  - destruct (String.prefix w (String c t)) eqn:Hp.
    + apply prefix_spec in Hp. destruct Hp as [post Hp].
      split; [intros _; now exists "", post | reflexivity].
    + rewrite IH. split.
      * intros (pre & post & ->). now exists (String c pre), post.
      * intros (pre & post & H). destruct pre as [|d pre].
        -- cbn in H.
           assert (String.prefix w (String c t) = true)
             by (apply prefix_spec; now exists post).
           congruence.
        -- cbn in H. injection H as _ H. now exists pre, post.
Qed.

Lemma includes_trans t a b :
  includes t a = true -> includes a b = true -> includes t b = true.
Proof.
  rewrite !includes_spec. intros (p & q & ->) (p' & q' & ->).
  exists (p ++ p'), (q' ++ q). now rewrite !append_assoc.
Qed.

(** X12: a message that contains "unhappy" (or any other word containing
    "happy") sets the mood to "happy": the "unhappy" keyword of the sad
    branch can never decide. *)
Theorem unhappy_is_read_as_happy toLowerCase message userMood :
  includes (toLowerCase message) "unhappy" = true ->
  analyzeUserMessage toLowerCase message userMood = "happy".
Proof.
  intros Hun.
  assert (Hh : includes (toLowerCase message) "happy" = true)
    by (apply (includes_trans _ _ _ Hun); reflexivity).
  unfold analyzeUserMessage. rewrite Hh. reflexivity.
Qed.

Lemma unhappy_is_read_as_happy_witness :
  analyzeUserMessage asciiToLowerCase "I am so Unhappy today" "neutral" = "happy".
Proof. apply unhappy_is_read_as_happy. reflexivity. Defined.

(** X13: the analysis never sets the mood back to "neutral": the new mood
    is one of the six emotions or the old mood, and a mood that has left
    "neutral" stays away from it whatever is typed afterwards. *)
Theorem mood_never_returns_to_neutral toLowerCase :
  (forall message userMood,
      In (analyzeUserMessage toLowerCase message userMood)
         [userMood; "happy"; "sad"; "angry"; "fearful"; "surprised"; "disgusted"])
  /\ (forall messages userMood,
         userMood <> "neutral" ->
         fold_left (fun mood message => analyzeUserMessage toLowerCase message mood)
                   messages userMood <> "neutral").
Proof.
  assert (Hone : forall message userMood,
             In (analyzeUserMessage toLowerCase message userMood)
                [userMood; "happy"; "sad"; "angry"; "fearful"; "surprised";
                 "disgusted"]
             /\ (userMood <> "neutral" ->
                 analyzeUserMessage toLowerCase message userMood <> "neutral")).
  { intros message userMood. unfold analyzeUserMessage.
    repeat match goal with
           | |- context [if ?c then _ else _] => destruct c eqn:?
           end; cbn; split; try tauto; try discriminate;
      try (intros Hne; apply String.eqb_neq; assumption);
      try (intros Hne; exact Hne);
      try (intros Hne _; match goal with
                         | H : String.eqb userMood "neutral" = true |- _ =>
                             apply String.eqb_eq in H; contradiction
                         end). }
  split.
  - intros message userMood. apply Hone.
  - intros messages. induction messages as [|m messages IH]; intros userMood Hne.
    + exact Hne.
    + cbn [fold_left]. apply IH. now apply Hone.
Qed.

Lemma mood_never_returns_to_neutral_witness :
  fold_left (fun mood message => analyzeUserMessage asciiToLowerCase message mood)
            ["I feel great"; "ok"; "the weather is fine"] "neutral" <> "neutral".
Proof.
  change (fold_left
            (fun mood message => analyzeUserMessage asciiToLowerCase message mood)
            ["ok"; "the weather is fine"] "happy" <> "neutral").
  apply (proj2 (mood_never_returns_to_neutral asciiToLowerCase)). discriminate.
Defined.

(** X14: with a neutral mood and no emotion keyword, one "not" is enough
    for "sad": "not" also contains the negative word "no", so it counts
    twice against the test [negativeCount > 1]. *)
Theorem a_single_not_reads_as_sad toLowerCase message :
  existsb (includes (toLowerCase message)) emotionWords = false ->
  includes (toLowerCase message) "not" = true ->
  analyzeUserMessage toLowerCase message "neutral" = "sad".
Proof.
  intros Hnone Hnot.
  assert (Hno : includes (toLowerCase message) "no" = true)
    by (apply (includes_trans _ _ _ Hnot); reflexivity).
  cbn [existsb emotionWords] in Hnone.
  repeat match type of Hnone with
         | _ || _ = false =>
             apply orb_false_iff in Hnone;
             let H := fresh "Hw" in destruct Hnone as [H Hnone]
         end.
  unfold analyzeUserMessage.
  repeat match goal with
         | H : includes _ _ = false |- _ => rewrite H; clear H
         end.
  cbn [orb String.eqb Ascii.eqb Bool.eqb andb]. cbn [negativeWords filter].
  rewrite Hnot, Hno. reflexivity.
Qed.

Lemma a_single_not_reads_as_sad_witness :
  analyzeUserMessage asciiToLowerCase "It is NOT easy" "neutral" = "sad".
Proof. apply a_single_not_reads_as_sad; reflexivity. Defined.

End TextChatFacts.

(** ** The typing animation *)

Section TypingFacts.

Import Ascii TextChat.
Local Open Scope list_scope.
Local Open Scope string_scope.

Lemma split_nonempty sep s : split sep s <> [].
Proof.
  induction s as [|c s IH]; cbn; [discriminate|].
  destruct (Ascii.eqb c sep); [discriminate|].
  destruct (split sep s); discriminate.
Qed.

(** Splitting at a character and joining with it gives the text back. *)
Lemma join_cons sep w w' ws :
  join sep (w :: w' :: ws) = w ++ sep ++ join sep (w' :: ws).
Proof. reflexivity. Qed.

Lemma join_split sep s : join (String sep "") (split sep s) = s.
Proof.
  induction s as [|c s IH]; [reflexivity|].
  cbn [split]. pose proof (split_nonempty sep s) as Hs'.
  destruct (split sep s) as [|w ws]; [congruence|].
  destruct (Ascii.eqb_spec c sep) as [->|Hne].
  - rewrite join_cons, IH. reflexivity.
  - destruct ws as [|w' ws].
    + cbn in *. now rewrite IH.
    + rewrite join_cons. rewrite join_cons in IH. rewrite <- IH. reflexivity.
Qed.

(** One pass of the loop from an index inside the word list: every
    partial message but the last is taken away again, and the last one is
    the whole list joined. *)
Lemma typeFrom_spec words chat :
  forall fuel i,
    (i < List.length words)%nat ->
    (List.length words <= i + 2 * fuel)%nat ->
    typeFrom fuel i words chat
    = addMessageToChat "ai" (join " " words) chat.
Proof.
  induction fuel as [|fuel IH]; intros i Hi Hfuel; [lia|].
  cbn [typeFrom].
  destruct (Nat.ltb_spec i (List.length words)) as [_|]; [|lia].
  destruct (Nat.ltb_spec (i + 2) (List.length words)) as [Hmore|Hlast].
  - unfold addMessageToChat at 1. rewrite removelast_last.
    apply IH; lia.
  - rewrite firstn_all2 by lia. rewrite append_nil_r.
    destruct fuel as [|fuel']; [reflexivity|].
    cbn [typeFrom].
    destruct (Nat.ltb_spec (i + 2) (List.length words)); [lia|reflexivity].
Qed.

(** X15: when the typing animation of a response has run, the chat holds
    what it held before and one more message, from "ai", whose text is
    the response itself: every partial text was removed, and the last
    carries no trailing dots. *)
Theorem typing_ends_with_the_whole_response aiResponse chat :
  typeOut aiResponse chat
  = (chat ++ [{| sender := "ai"; text := aiResponse |}])%list.
Proof.
  unfold typeOut.
  pose proof (split_nonempty " "%char aiResponse) as Hne.
  rewrite typeFrom_spec.
  - unfold addMessageToChat. now rewrite join_split.
  - destruct (split " "%char aiResponse); [congruence | cbn; lia].
  - lia.
Qed.

End TypingFacts.
